(** * convert_pdfs.py: a shallow embedding and its verified properties

    The script converts every PDF of a fixed directory into a Markdown
    file plus a directory of extracted images.  Its three functions,
    [extract_images], [convert_pdf_to_markdown] and [main], are embedded
    below as computations of a small state-and-exception monad over a
    file system and a console.

    Conventions of the embedding:
    - a Python [str] is a [string]; its characters stand for the code
      points below 256.  [is_space] follows [str.isspace] on that range;
      [title] follows [str.title] on ASCII strings only (a character
      above 127 is left as it is, where Python looks its case up in the
      Unicode tables), and the title is characterised for ASCII stems;
    - a [pathlib.Path] is the list of its components, [p / c] appends one
      component;
    - PyMuPDF is a black box: a page or a document is a record of the
      answers (a value or an exception) of the calls the script makes;
    - the file system maps a path to a directory or to a file with its
      content.  [mkdir] fails on an existing regular file, opening a
      directory for writing fails.  A directory is made, and a file is
      written, as where its parent directory is in place: the ancestors
      that [parents=True] would make on the way are not recorded, a
      regular file among them is not looked for, and permissions are not
      tracked.  A property that says what a run of [main] achieves is
      therefore stated from a state in which the directory [docs] exists,
      where every directory the script makes and every file it writes has
      its parent in place;
    - every effect that succeeded (a console line, a directory creation,
      a file write) is appended to the log of the state, in order. *)

From Stdlib Require Import String Ascii List Arith Lia DecimalString DecimalNat.
From stdpp Require Import base gmap list strings sorting.

Local Open Scope stdpp_scope.

(** ** Python strings *)

Definition LF : ascii := "010"%char.
Definition nl : string := String LF "".

(** [str.isspace] on one character, for code points below 256. *)
Definition is_space (c : ascii) : bool :=
  let n := nat_of_ascii c in
  (((9 <=? n) && (n <=? 13)) || ((28 <=? n) && (n <=? 32))
   || (n =? 133) || (n =? 160))%nat.

Definition is_lower (c : ascii) : bool :=
  let n := nat_of_ascii c in ((97 <=? n) && (n <=? 122))%nat.

Definition is_upper (c : ascii) : bool :=
  let n := nat_of_ascii c in ((65 <=? n) && (n <=? 90))%nat.

Definition is_cased (c : ascii) : bool := is_lower c || is_upper c.

Definition to_upper (c : ascii) : ascii :=
  if is_lower c then ascii_of_nat (nat_of_ascii c - 32) else c.

Definition to_lower (c : ascii) : ascii :=
  if is_upper c then ascii_of_nat (nat_of_ascii c + 32) else c.

(** Truth value of a string: non-empty. *)
Definition truthy (s : string) : bool :=
  match s with EmptyString => false | String _ _ => true end.

Fixpoint lstrip (s : string) : string :=
  match s with
  | EmptyString => EmptyString
  | String c s' => if is_space c then lstrip s' else s
  end.

Fixpoint rstrip (s : string) : string :=
  match s with
  | EmptyString => EmptyString
  | String c s' =>
      match rstrip s' with
      | EmptyString => if is_space c then EmptyString else String c EmptyString
      | r => String c r
      end
  end.

(** [s.strip()] *)
Definition strip (s : string) : string := rstrip (lstrip s).

(** [s.split(sep)] for a one-character separator. *)
Fixpoint split (sep : ascii) (s : string) : list string :=
  match s with
  | EmptyString => [EmptyString]
  | String c s' =>
      if Ascii.eqb c sep then EmptyString :: split sep s'
      else match split sep s' with
           | h :: t => String c h :: t
           | [] => [String c EmptyString]
           end
  end.

(** [sep.join(l)] *)
Definition join (sep : string) (l : list string) : string := String.concat sep l.

(** [s.replace(old, new)] for one-character arguments. *)
Fixpoint replace (old new : ascii) (s : string) : string :=
  match s with
  | EmptyString => EmptyString
  | String c s' => String (if Ascii.eqb c old then new else c) (replace old new s')
  end.

(** [s.title()] on an ASCII string: a character that follows a cased one is
    lower-cased, any other one is title-cased.  The cased characters are
    the ASCII letters; a character above 127 is left as it is. *)
Fixpoint title_go (previous_is_cased : bool) (s : string) : string :=
  match s with
  | EmptyString => EmptyString
  | String c s' =>
      String (if previous_is_cased then to_lower c else to_upper c)
             (title_go (is_cased c) s')
  end.

Definition title (s : string) : string := title_go false s.

(** [str(n)] for a non-negative integer. *)
Definition str (n : nat) : string := NilEmpty.string_of_uint (Nat.to_uint n).

(** [enumerate(l, start)] *)
Fixpoint enumerate {A : Type} (start : nat) (l : list A) : list (nat * A) :=
  match l with
  | [] => []
  | x :: l' => (start, x) :: enumerate (S start) l'
  end.

(** ** Exceptions, the file system and the monad of the script *)

(** An exception, with the text [str(e)] that the handlers print. *)
Inductive exn : Type := Exception (msg : string).

Definition str_exn (e : exn) : string := match e with Exception msg => msg end.

Inductive result (A : Type) : Type :=
| Ok (a : A)
| Raise (e : exn).
Arguments Ok {A} a.
Arguments Raise {A} e.

Abbreviation path := (list string) (only parsing).

Definition path_join (p : path) (c : string) : path := p ++ [c].
Declare Scope path_scope.
Delimit Scope path_scope with path.
Infix "/" := path_join : path_scope.

(** [str(p)] *)
Definition path_str (p : path) : string := join "/" p.

(** What a file holds: the bytes written in mode "wb", or the text written
    in mode "w" with the UTF-8 encoding. *)
Inductive data : Type :=
| Bytes (b : list Byte.byte)
| Utf8 (s : string).

Inductive node : Type :=
| Dir
| File (d : data).

Inductive event : Type :=
| Print (s : string)
| Mkdir (p : path)
| Write (p : path) (d : data).

Record state : Type := State {
  fs : gmap (list string) node;
  log : list event
}.

Definition M (A : Type) : Type := state -> result A * state.

Definition ret {A : Type} (a : A) : M A := fun st => (Ok a, st).

Definition raise {A : Type} (e : exn) : M A := fun st => (Raise e, st).

Definition bind {A B : Type} (m : M A) (k : A -> M B) : M B :=
  fun st =>
    match m st with
    | (Ok a, st') => k a st'
    | (Raise e, st') => (Raise e, st')
    end.

Notation "x <- m ;; k" := (bind m (fun x => k))
  (at level 100, m at next level, right associativity).
Notation "m ;; k" := (bind m (fun _ => k))
  (at level 100, right associativity).

(** [try: body  except Exception as e: handler e] *)
Definition try_except {A : Type} (body : M A) (handler : exn -> M A) : M A :=
  fun st =>
    match body st with
    | (Ok a, st') => (Ok a, st')
    | (Raise e, st') => handler e st'
    end.

(** A call into the PDF library, whose answer is given. *)
Definition call {A : Type} (r : result A) : M A := fun st => (r, st).

Definition emit (ev : event) (f : gmap (list string) node) (st : state) : state :=
  {| fs := f; log := log st ++ [ev] |}.

(** [print(s)] *)
Definition print (s : string) : M unit :=
  fun st => (Ok tt, emit (Print s) (fs st) st).

(** [p.mkdir(parents=True, exist_ok=True)], as where the parent of [p] is
    in place: an existing directory is left alone, a regular file at [p]
    stops the call, and nothing is recorded for the ancestors of [p]. *)
Definition mkdir (p : path) : M unit :=
  fun st =>
    match fs st !! p with
    | Some (File _) =>
        (Raise (Exception ("[Errno 17] File exists: '" +:+ path_str p +:+ "'")), st)
    | _ => (Ok tt, emit (Mkdir p) (<[p := Dir]> (fs st)) st)
    end.

(** [with open(p, mode) as f: f.write(d)], as where the parent directory of
    [p] is in place: the file is created or overwritten as a whole, and a
    directory at [p] stops the call. *)
Definition write_file (p : path) (d : data) : M unit :=
  fun st =>
    match fs st !! p with
    | Some Dir =>
        (Raise (Exception ("[Errno 21] Is a directory: '" +:+ path_str p +:+ "'")), st)
    | _ => (Ok tt, emit (Write p d) (<[p := File d]> (fs st)) st)
    end.

(** A [for] loop over [l] whose body updates the local variables [s]. *)
Fixpoint for_in {A S : Type} (l : list A) (body : A -> S -> M S) (s : S) : M S :=
  match l with
  | [] => ret s
  | x :: l' => s' <- body x s ;; for_in l' body s'
  end.

(** ** The PDF library, as the script sees it *)

(** The dictionary returned by [Document.extract_image]. *)
Record BaseImage : Type := {
  image : option (list Byte.byte);
  ext : option string
}.

(** [d[key]], raising [KeyError(key)] when the key is missing. *)
Definition getitem {A : Type} (key : string) (v : option A) : M A :=
  match v with
  | Some a => ret a
  | None => raise (Exception ("'" +:+ key +:+ "'"))
  end.

(** An entry of [page.get_images(full=True)]; the script reads item 0. *)
Record ImgInfo : Type := { xref : nat }.

Record Page : Type := {
  get_text : result string;                         (* page.get_text("text") *)
  get_images : result (list ImgInfo);               (* page.get_images(full=True) *)
  parent_extract_image : nat -> result BaseImage    (* page.parent.extract_image(xref) *)
}.

Record Document : Type := {
  len : nat;                                        (* len(doc) *)
  load_page : nat -> result Page                    (* doc[page_num] *)
}.

Record PdfPath : Type := {
  name : string;                                    (* pdf_path.name *)
  stem : string                                     (* pdf_path.stem *)
}.

Record Env : Type := {
  glob_pdf : list string -> list PdfPath;           (* pdf_dir.glob("*.pdf") *)
  fitz_open : PdfPath -> result Document            (* fitz.open(pdf_path) *)
}.

Definition path_le (p q : PdfPath) : Prop := String.le (name p) (name q).

#[global] Instance path_le_dec : RelDecision path_le.
Proof. intros p q. unfold path_le. apply _. Defined.

(** [sorted(paths)] for paths of one directory. *)
Definition sorted (l : list PdfPath) : list PdfPath := merge_sort path_le l.

(** ** The script *)

Definition image_filename (page_num img_idx : nat) (image_ext : string) : string :=
  "page" +:+ str (page_num + 1) +:+ "_img" +:+ str img_idx +:+ "." +:+ image_ext.

Definition image_ref (pdf_name image_filename : string) : string :=
  let relative_path := "images/" +:+ pdf_name +:+ "/" +:+ image_filename in
  "![Image](" +:+ relative_path +:+ ")".

Definition image_warning (page_num img_idx : nat) (e : exn) : string :=
  "    Warning: Could not extract image " +:+ str img_idx +:+ " from page "
  +:+ str (page_num + 1) +:+ ": " +:+ str_exn e.

(** The body of the [try] of [extract_images]. *)
Definition extract_one (page : Page) (pdf_name : string) (page_num : nat)
    (pdf_images_dir : path) (img_idx : nat) (img_info : ImgInfo)
    (image_refs : list string) : M (list string) :=
  let xref := xref img_info in
  base_image <- call (parent_extract_image page xref) ;;
  image_bytes <- getitem "image" (image base_image) ;;
  image_ext <- getitem "ext" (ext base_image) ;;
  let image_filename := image_filename page_num img_idx image_ext in
  let image_path := (pdf_images_dir / image_filename)%path in
  write_file image_path (Bytes image_bytes) ;;
  ret (image_refs ++ [image_ref pdf_name image_filename]).

(** One turn of the loop of [extract_images]: the [try] and its handler. *)
Definition extract_step (page : Page) (pdf_name : string) (page_num : nat)
    (pdf_images_dir : path) (slot : nat * ImgInfo)
    (image_refs : list string) : M (list string) :=
  let '(img_idx, img_info) := slot in
  try_except
    (extract_one page pdf_name page_num pdf_images_dir img_idx img_info image_refs)
    (fun e => print (image_warning page_num img_idx e) ;; ret image_refs).

Definition extract_images (page : Page) (pdf_name : string) (page_num : nat)
    (images_dir : path) : M (list string) :=
  let image_refs := [] in
  image_list <- call (get_images page) ;;
  match image_list with
  | [] => ret image_refs
  | _ :: _ =>
      let pdf_images_dir := (images_dir / pdf_name)%path in
      mkdir pdf_images_dir ;;
      for_in (enumerate 1 image_list)
        (extract_step page pdf_name page_num pdf_images_dir)
        image_refs
  end.

(** The loop over the lines of a page text. *)
Fixpoint process_lines (lines processed_lines : list string) : list string :=
  match lines with
  | [] => processed_lines
  | line :: lines' =>
      let line := strip line in
      process_lines lines'
        (if truthy line then processed_lines ++ [line] else processed_lines)
  end.

Definition page_heading (page_num : nat) : string :=
  nl +:+ "## Page " +:+ str (page_num + 1) +:+ nl.

Definition images_heading (page_num : nat) : string :=
  nl +:+ "### Images from Page " +:+ str (page_num + 1) +:+ nl.

(** What the page loop appends for the text of a page. *)
Definition text_fragments (page_num : nat) (text : string) : list string :=
  if truthy (strip text) then
    let lines := split LF text in
    let processed_lines := process_lines lines [] in
    [page_heading page_num; join nl processed_lines; nl]
  else [].

(** What the page loop appends for the image references of a page. *)
Definition image_fragments (page_num : nat) (image_refs : list string) : list string :=
  match image_refs with
  | [] => []
  | _ :: _ => [images_heading page_num; join (nl +:+ nl) image_refs; nl]
  end.

(** The body of the page loop of [convert_pdf_to_markdown]. *)
Definition convert_page (doc : Document) (pdf_name : string) (images_dir : path)
    (page_num : nat) (markdown_content : list string) : M (list string) :=
  page <- call (load_page doc page_num) ;;
  text <- call (get_text page) ;;
  let markdown_content := markdown_content ++ text_fragments page_num text in
  image_refs <- extract_images page pdf_name page_num images_dir ;;
  ret (markdown_content ++ image_fragments page_num image_refs).

Definition title_line (pdf_name : string) : string :=
  "# " +:+ title (replace "-" " " pdf_name) +:+ nl.

Definition header (pdf_path : PdfPath) : list string :=
  [title_line (stem pdf_path);
   "*Converted from: " +:+ name pdf_path +:+ "*" +:+ nl;
   "---" +:+ nl].

Definition output_name (pdf_name : string) : string := pdf_name +:+ ".md".

Definition convert_pdf_to_markdown (env : Env) (pdf_path : PdfPath)
    (output_dir images_dir : path) : M unit :=
  let pdf_name := stem pdf_path in
  print ("Converting: " +:+ name pdf_path) ;;
  doc <- call (fitz_open env pdf_path) ;;
  let markdown_content := header pdf_path in
  markdown_content <-
    for_in (seq 0 (len doc)) (convert_page doc pdf_name images_dir) markdown_content ;;
  (* doc.close(): no effect on the files or on the console *)
  let output_path := (output_dir / output_name pdf_name)%path in
  write_file output_path (Utf8 (join nl markdown_content)) ;;
  print ("  -> Created: " +:+ output_name pdf_name).

Definition convert_error (pdf_path : PdfPath) (e : exn) : string :=
  "  Error converting " +:+ name pdf_path +:+ ": " +:+ str_exn e.

(** The loop of [main] over the PDF files. *)
Definition convert_all (env : Env) (output_dir images_dir : path)
    (pdf_files : list PdfPath) : M unit :=
  for_in pdf_files
    (fun pdf_path _ =>
       try_except
         (convert_pdf_to_markdown env pdf_path output_dir images_dir)
         (fun e => print (convert_error pdf_path e)))
    tt.

Definition main (env : Env) (script_dir : path) : M unit :=
  let pdf_dir := (script_dir / "docs" / "nfse-nacional")%path in
  let output_dir := (script_dir / "docs" / "markdown")%path in
  let images_dir := (output_dir / "images")%path in
  mkdir output_dir ;;
  mkdir images_dir ;;
  let pdf_files := sorted (glob_pdf env pdf_dir) in
  match pdf_files with
  | [] => print ("No PDF files found in " +:+ path_str pdf_dir)
  | _ :: _ =>
      print ("Found " +:+ str (length pdf_files) +:+ " PDF files to convert" +:+ nl) ;;
      convert_all env output_dir images_dir pdf_files ;;
      print (nl +:+ "Conversion complete!") ;;
      print ("Markdown files saved to: " +:+ path_str output_dir) ;;
      print ("Images saved to: " +:+ path_str images_dir)
  end.

(** The page loop of [convert_pdf_to_markdown], on its own. *)
Definition convert_pages (doc : Document) (pdf_name : string) (images_dir : path)
    (markdown_content : list string) : M (list string) :=
  for_in (seq 0 (len doc)) (convert_page doc pdf_name images_dir) markdown_content.

(** ** Vocabulary of the statements *)

Definition is_dir (f : gmap (list string) node) (p : path) : bool :=
  match f !! p with Some Dir => true | _ => false end.

Definition is_file (f : gmap (list string) node) (p : path) : bool :=
  match f !! p with Some (File _) => true | _ => false end.

(** The effect of a logged event on the file system. *)
Definition apply_event (f : gmap (list string) node) (ev : event) : gmap (list string) node :=
  match ev with
  | Print _ => f
  | Mkdir p => <[p := Dir]> f
  | Write p d => <[p := File d]> f
  end.

Definition replay (evs : list event) (f : gmap (list string) node) : gmap (list string) node :=
  fold_left apply_event evs f.

(** The state reached from [st] by the events [evs]. *)
Definition extend (st : state) (evs : list event) : state :=
  {| fs := replay evs (fs st); log := log st ++ evs |}.

(** The paths created or written by a sequence of events, in order. *)
Definition touches (evs : list event) : list (list string) :=
  flat_map (fun ev => match ev with Print _ => [] | Mkdir p => [p] | Write p _ => [p] end) evs.

(** The paths written by a sequence of events, in order. *)
Definition writes (evs : list event) : list (list string) :=
  flat_map (fun ev => match ev with Write p _ => [p] | _ => [] end) evs.

Fixpoint all_chars (P : ascii -> bool) (s : string) : bool :=
  match s with
  | EmptyString => true
  | String c s' => P c && all_chars P s'
  end.

(** A string made of white space only (the empty one included). *)
Definition blank (s : string) : bool := all_chars is_space s.

Definition is_digit (c : ascii) : bool :=
  let n := nat_of_ascii c in ((48 <=? n) && (n <=? 57))%nat.

Definition no_lf (s : string) : bool := all_chars (fun c => negb (Ascii.eqb c LF)) s.

Definition first_char (s : string) : option ascii :=
  match s with EmptyString => None | String c _ => Some c end.

Fixpoint last_char (s : string) : option ascii :=
  match s with
  | EmptyString => None
  | String c EmptyString => Some c
  | String _ s' => last_char s'
  end.

(** No white space at either end. *)
Definition trimmed (s : string) : Prop :=
  (forall c, first_char s = Some c -> is_space c = false) /\
  (forall c, last_char s = Some c -> is_space c = false).

(** The answer of the library for one listed image: its bytes and the
    extension detected, or the exception of the call or of a missing key. *)
Definition fetch (page : Page) (img_info : ImgInfo) : result (list Byte.byte * string) :=
  match parent_extract_image page (xref img_info) with
  | Raise e => Raise e
  | Ok base_image =>
      match image base_image with
      | None => Raise (Exception "'image'")
      | Some image_bytes =>
          match ext base_image with
          | None => Raise (Exception "'ext'")
          | Some image_ext => Ok (image_bytes, image_ext)
          end
      end
  end.

(** The outcome of the extraction of the image listed at position
    [img_idx], on a file system [f]: the extension and the bytes of the
    file written, or the exception that the handler reports. *)
Definition attempt (page : Page) (f : gmap (list string) node) (pdf_images_dir : path)
    (page_num : nat) (slot : nat * ImgInfo) : result (string * list Byte.byte) :=
  match fetch page (snd slot) with
  | Raise e => Raise e
  | Ok (image_bytes, image_ext) =>
      let image_path := (pdf_images_dir / image_filename page_num (fst slot) image_ext)%path in
      match f !! image_path with
      | Some Dir =>
          Raise (Exception ("[Errno 21] Is a directory: '" +:+ path_str image_path +:+ "'"))
      | _ => Ok (image_ext, image_bytes)
      end
  end.

(** The images of a listing that are extracted: position, extension, bytes. *)
Definition extracted (page : Page) (f : gmap (list string) node) (pdf_images_dir : path)
    (page_num : nat) (slots : list (nat * ImgInfo)) : list (nat * string * list Byte.byte) :=
  flat_map (fun slot =>
              match attempt page f pdf_images_dir page_num slot with
              | Ok (image_ext, image_bytes) => [(fst slot, image_ext, image_bytes)]
              | Raise _ => []
              end) slots.

Definition ref_of (pdf_name : string) (page_num : nat)
    (x : nat * string * list Byte.byte) : string :=
  image_ref pdf_name (image_filename page_num (fst (fst x)) (snd (fst x))).

(** The events of the loop of [extract_images] over a listing. *)
Definition slot_events (page : Page) (f : gmap (list string) node) (pdf_images_dir : path)
    (page_num : nat) (slots : list (nat * ImgInfo)) : list event :=
  map (fun slot =>
         match attempt page f pdf_images_dir page_num slot with
         | Ok (image_ext, image_bytes) =>
             Write (pdf_images_dir / image_filename page_num (fst slot) image_ext)%path
                   (Bytes image_bytes)
         | Raise e => Print (image_warning page_num (fst slot) e)
         end) slots.

(** The lines of a Markdown text that read as a page heading. *)
Definition page_headings_of (content : string) : list string :=
  filter (fun line => Is_true (String.prefix "## Page" line)) (split LF content).

Definition heading_line (k : nat) : string := "## Page " +:+ str k.


(** ** Sample inputs *)

Definition empty_state : state := {| fs := ∅; log := [] |}.

Definition png_image : BaseImage :=
  {| image := Some [Byte.x89; Byte.x50; Byte.x4e; Byte.x47]; ext := Some "png" |}.

Definition empty_image : BaseImage := {| image := Some []; ext := Some "png" |}.

(** A page that lists two images; the first one cannot be extracted. *)
Definition page_bad_good : Page :=
  {| get_text := Ok "Nota fiscal";
     get_images := Ok [ {| xref := 7 |}; {| xref := 8 |} ];
     parent_extract_image :=
       fun xref => if Nat.eqb xref 7 then Raise (Exception "bad image") else Ok png_image |}.

(** A page whose only image has an empty payload. *)
Definition page_empty_image : Page :=
  {| get_text := Ok "Nota fiscal";
     get_images := Ok [ {| xref := 3 |} ];
     parent_extract_image := fun _ => Ok empty_image |}.

(** The size of a file, when the path holds one. *)
Definition file_size (f : gmap (list string) node) (p : path) : option nat :=
  match f !! p with
  | Some (File (Bytes b)) => Some (length b)
  | Some (File (Utf8 s)) => Some (String.length s)
  | _ => None
  end.

(** A page that lists one image, which cannot be extracted. *)
Definition page_bad_only : Page :=
  {| get_text := Ok "Nota fiscal";
     get_images := Ok [ {| xref := 7 |} ];
     parent_extract_image := fun _ => Raise (Exception "bad image") |}.

(** A document of one page: some text and two images, one of them bad. *)
Definition sample_doc : Document :=
  {| len := 1; load_page := fun _ => Ok page_bad_good |}.

(** A page with text on three lines, with white space around the words
    and a line of spaces only, and without images. *)
Definition page_spaced_text : Page :=
  {| get_text := Ok ("  Nota fiscal  " +:+ nl +:+ "   " +:+ nl +:+ " de servico" +:+ nl);
     get_images := Ok [];
     parent_extract_image := fun _ => Raise (Exception "no image") |}.

Definition spaced_doc : Document :=
  {| len := 1; load_page := fun _ => Ok page_spaced_text |}.

(** *** The title, in words

    The letters are those of the two alphabets below; the capital of the
    k-th small letter is the k-th capital letter, and the other way
    round. *)
Definition small_letters : string := "abcdefghijklmnopqrstuvwxyz".
Definition capital_letters : string := "ABCDEFGHIJKLMNOPQRSTUVWXYZ".

(** The first position of [c] in [s]. *)
Fixpoint position (c : ascii) (s : string) : option nat :=
  match s with
  | EmptyString => None
  | String x s' => if Ascii.eqb c x then Some 0 else option_map S (position c s')
  end.

Definition is_letter (c : ascii) : bool :=
  match position c small_letters, position c capital_letters with
  | None, None => false
  | _, _ => true
  end.

Definition capital_of (c : ascii) : ascii :=
  match position c small_letters with
  | Some k => default c (String.get k capital_letters)
  | None => c
  end.

Definition small_of (c : ascii) : ascii :=
  match position c capital_letters with
  | Some k => default c (String.get k small_letters)
  | None => c
  end.

(** A string of ASCII characters (code points below 128), the ones whose
    case [str.title] settles without the Unicode tables. *)
Definition ascii_only (s : string) : bool :=
  all_chars (fun c => (nat_of_ascii c <? 128)%nat) s.

(** Whether position [i] of [s] comes right after a letter, that is,
    whether it is inside a word rather than at the start of one. *)
Definition follows_letter (s : string) (i : nat) : bool :=
  match i with
  | 0 => false
  | S j => match String.get j s with Some p => is_letter p | None => false end
  end.

(** The character of the title for the character [c] at position [i] of
    the stem: a space for a hyphen, the capital for a letter that starts a
    word, the small letter for a letter inside a word, [c] otherwise. *)
Definition title_char (s : string) (i : nat) (c : ascii) : ascii :=
  if Ascii.eqb c "-" then " "%char
  else if is_letter c then
         if follows_letter s i then small_of c else capital_of c
       else c.

(** The events that the page loop may cause for the pages [lo], ..,
    [hi - 1] of a document whose image directory is [dir]. *)
Definition image_event_in (dir : path) (lo hi : nat) (ev : event) : Prop :=
  match ev with
  | Print _ => True
  | Mkdir p => p = dir
  | Write p _ => exists n i x, lo <= n < hi /\ p = (dir / image_filename n i x)%path
  end.

(** A page whose text cannot be read. *)
Definition page_unreadable : Page :=
  {| get_text := Raise (Exception "cannot read page");
     get_images := Ok [];
     parent_extract_image := fun _ => Raise (Exception "bad image") |}.

(** A document whose first page has an image and whose second page fails. *)
Definition broken_doc : Document :=
  {| len := 2;
     load_page := fun n => if Nat.eqb n 0 then Ok page_bad_good else Ok page_unreadable |}.

Definition nota_pdf : PdfPath := {| name := "nota.pdf"; stem := "nota" |}.

Definition broken_env : Env :=
  {| glob_pdf := fun _ => [nota_pdf]; fitz_open := fun _ => Ok broken_doc |}.

(** *** Running the batch again

    The paths that a run of [main] creates as directories and those it
    writes as files, for the output directory [O]. *)
Definition mkdir_target (O : path) (p : path) : Prop :=
  p = O \/ p = (O / "images")%path \/ exists s, p = (O / "images" / s)%path.

Definition write_target (O : path) (p : path) : Prop :=
  (exists s, p = (O / output_name s)%path)
  \/ (exists s f, p = (O / "images" / s / f)%path).

(** Two file systems on which the run behaves alike: no difference in what
    stops a directory creation or a write. *)
Definition same_kinds (O : path) (f g : gmap (list string) node) : Prop :=
  (forall p, mkdir_target O p -> is_file f p = is_file g p) /\
  (forall p, write_target O p -> is_dir f p = is_dir g p).

(** A computation with the same result and the same events from any two
    such states, and which leaves each of them such. *)
Definition stable {A : Type} (O : path) (c : M A) : Prop :=
  forall st1 st2, same_kinds O (fs st1) (fs st2) ->
    exists r evs,
      c st1 = (r, extend st1 evs) /\ c st2 = (r, extend st2 evs)
      /\ same_kinds O (fs st1) (replay evs (fs st1))
      /\ same_kinds O (fs st2) (replay evs (fs st2)).

(** A page whose text reads as a page heading. *)
Definition page_heading_text : Page :=
  {| get_text := Ok "## Page 7";
     get_images := Ok [];
     parent_extract_image := fun _ => Raise (Exception "no image") |}.

Definition heading_text_env : Env :=
  {| glob_pdf := fun _ => [nota_pdf];
     fitz_open := fun _ => Ok {| len := 1; load_page := fun _ => Ok page_heading_text |} |}.

Definition sample_env : Env :=
  {| glob_pdf := fun _ => [nota_pdf]; fitz_open := fun _ => Ok sample_doc |}.

(** ** Vocabulary of the further properties *)

(** Every file of [f] is still a file in [g], every directory still a
    directory. *)
Definition keeps (f g : gmap (list string) node) : Prop :=
  forall p, (is_file f p = true -> is_file g p = true)
            /\ (is_dir f p = true -> is_dir g p = true).

(** A computation all of whose events satisfy [P], and which removes no
    node and changes the kind of none. *)
Definition traced {A : Type} (P : event -> Prop) (c : M A) : Prop :=
  forall st, exists r evs,
    c st = (r, extend st evs) /\ Forall P evs /\ keeps (fs st) (replay evs (fs st)).

(** An event that creates or writes nothing outside the directory [O]. *)
Definition under (O : path) (ev : event) : Prop :=
  match ev with
  | Print _ => True
  | Mkdir p => O `prefix_of` p
  | Write p _ => O `prefix_of` p
  end.

(** The console lines that announce a conversion. *)
Definition converting_lines (evs : list event) : list string :=
  flat_map (fun ev => match ev with
                      | Print s => if String.prefix "Converting: " s then [s] else []
                      | _ => []
                      end) evs.

(** An event that is not the announcement of a conversion. *)
Definition quiet (ev : event) : Prop := converting_lines [ev] = [].

(** A state in which a regular file stands where [main] wants its output
    directory (the script being in the current directory). *)
Definition blocked_state : state :=
  {| fs := {[ ["docs"; "markdown"] := File (Utf8 "not a directory") ]}; log := [] |}.

(** A state in which the directory [docs] is there (the script being in
    the current directory), with nothing else yet. *)
Definition docs_state : state := {| fs := {[ ["docs"] := Dir ]}; log := [] |}.

(** A state in which an output directory [out] is there, with nothing
    else yet. *)
Definition out_state : state := {| fs := {[ ["out"] := Dir ]}; log := [] |}.

Definition empty_env : Env :=
  {| glob_pdf := fun _ => []; fitz_open := fun _ => Raise (Exception "no such file") |}.

(** The fragments of page [n]: those of its text, then those of the
    references of the images extracted on the file system [f]. *)
Definition page_section (pdf_name : string) (pdf_images_dir : path)
    (f : gmap (list string) node) (n : nat) (page : Page) (text : string)
    (image_list : list ImgInfo) : list string :=
  text_fragments n text
  ++ image_fragments n
       (map (ref_of pdf_name n)
            (extracted page f pdf_images_dir n (enumerate 1 image_list))).

(** A document of two pages without images, one blank and one empty. *)
Definition blank_doc : Document :=
  {| len := 2;
     load_page := fun n =>
       Ok {| get_text := Ok (if Nat.eqb n 0 then "  " +:+ nl +:+ " " else "");
             get_images := Ok [];
             parent_extract_image := fun _ => Raise (Exception "no image") |} |}.

Definition blank_env : Env :=
  {| glob_pdf := fun _ => [nota_pdf]; fitz_open := fun _ => Ok blank_doc |}.

(** A page whose only image comes without the key ["ext"]. *)
Definition page_no_ext : Page :=
  {| get_text := Ok "Nota fiscal";
     get_images := Ok [ {| xref := 5 |} ];
     parent_extract_image :=
       fun _ => Ok {| image := Some [Byte.x89; Byte.x50]; ext := None |} |}.

#[global] Instance path_le_trans : Transitive path_le.
Proof. intros p q r. unfold path_le. apply transitivity. Defined.

#[global] Instance path_le_total : Total path_le.
Proof. intros p q. unfold path_le. apply total, _. Defined.

(** Two PDF files, listed in the reverse order of their names. *)
Definition two_files_env : Env :=
  {| glob_pdf := fun _ => [ {| name := "b.pdf"; stem := "b" |};
                            {| name := "a.pdf"; stem := "a" |} ];
     fitz_open := fun _ => Raise (Exception "no such file") |}.
(** ** The monad: events and composition *)

Lemma extend_nil st : extend st [] = st.
Proof. destruct st as [f l]. unfold extend. simpl. by rewrite app_nil_r. Qed.

Lemma replay_app evs1 evs2 f : replay (evs1 ++ evs2) f = replay evs2 (replay evs1 f).
Proof. unfold replay. apply fold_left_app. Qed.

Lemma extend_extend st evs1 evs2 :
  extend (extend st evs1) evs2 = extend st (evs1 ++ evs2).
Proof. unfold extend. simpl. by rewrite replay_app, app_assoc. Qed.

Lemma emit_extend ev st : emit ev (apply_event (fs st) ev) st = extend st [ev].
Proof. reflexivity. Qed.

Lemma print_run s st : print s st = (Ok tt, extend st [Print s]).
Proof. reflexivity. Qed.

Lemma mkdir_ok p st :
  is_file (fs st) p = false -> mkdir p st = (Ok tt, extend st [Mkdir p]).
Proof.
  unfold is_file, mkdir. by destruct (fs st !! p) as [[|d]|].
Qed.

Lemma mkdir_fail p st :
  is_file (fs st) p = true -> exists e, mkdir p st = (Raise e, st).
Proof.
  unfold is_file, mkdir. destruct (fs st !! p) as [[|d]|]; try done. eauto.
Qed.

Lemma write_file_ok p d st :
  is_dir (fs st) p = false -> write_file p d st = (Ok tt, extend st [Write p d]).
Proof.
  unfold is_dir, write_file. by destruct (fs st !! p) as [[|d']|].
Qed.

Lemma write_file_fail p d st :
  is_dir (fs st) p = true ->
  write_file p d st =
    (Raise (Exception ("[Errno 21] Is a directory: '" +:+ path_str p +:+ "'")), st).
Proof.
  unfold is_dir, write_file. by destruct (fs st !! p) as [[|d']|].
Qed.

Lemma is_dir_insert_ne f p q v : p <> q -> is_dir (<[p := v]> f) q = is_dir f q.
Proof. intros H. unfold is_dir. by rewrite lookup_insert_ne. Qed.

Lemma is_file_insert_ne f p q v : p <> q -> is_file (<[p := v]> f) q = is_file f q.
Proof. intros H. unfold is_file. by rewrite lookup_insert_ne. Qed.

Lemma is_dir_insert_file f p d : is_dir (<[p := File d]> f) p = false.
Proof. unfold is_dir. by rewrite lookup_insert_eq. Qed.

Lemma is_dir_insert_dir f p : is_dir (<[p := Dir]> f) p = true.
Proof. unfold is_dir. by rewrite lookup_insert_eq. Qed.

Lemma is_file_insert_dir f p : is_file (<[p := Dir]> f) p = false.
Proof. unfold is_file. by rewrite lookup_insert_eq. Qed.

Lemma is_file_insert_file f p d : is_file (<[p := File d]> f) p = true.
Proof. unfold is_file. by rewrite lookup_insert_eq. Qed.

Lemma bind_ok {A B} (m : M A) (k : A -> M B) st a st' :
  m st = (Ok a, st') -> bind m k st = k a st'.
Proof. intros H. unfold bind. by rewrite H. Qed.

Lemma bind_raise {A B} (m : M A) (k : A -> M B) st e st' :
  m st = (Raise e, st') -> bind m k st = (Raise e, st').
Proof. intros H. unfold bind. by rewrite H. Qed.

Lemma for_in_app {A S} (l1 l2 : list A) (body : A -> S -> M S) s st :
  for_in (l1 ++ l2) body s st =
    match for_in l1 body s st with
    | (Ok s', st') => for_in l2 body s' st'
    | (Raise e, st') => (Raise e, st')
    end.
Proof.
  revert s st. induction l1 as [|x l1 IH]; intros s st; simpl.
  - reflexivity.
  - unfold bind. destruct (body x s st) as [[s'|e] st']; [apply IH | reflexivity].
Qed.

(** ** Decimal numerals and file names *)

Lemma string_of_uint_digits d : all_chars is_digit (NilEmpty.string_of_uint d) = true.
Proof. induction d; simpl; auto. Qed.

Lemma str_digits n : all_chars is_digit (str n) = true.
Proof. apply string_of_uint_digits. Qed.

Lemma str_inj n m : str n = str m -> n = m.
Proof.
  unfold str. intros H.
  apply Unsigned.to_uint_inj.
  assert (Hs : Some (Nat.to_uint n) = Some (Nat.to_uint m)).
  { rewrite <- (NilEmpty.usu (Nat.to_uint n)), <- (NilEmpty.usu (Nat.to_uint m)).
    by rewrite H. }
  congruence.
Qed.

(** Two numerals followed by a character that is not a digit: equal texts
    have equal numerals and equal remainders. *)
Lemma digits_then_other d1 d2 c1 c2 r1 r2 :
  all_chars is_digit d1 = true -> all_chars is_digit d2 = true ->
  is_digit c1 = false -> is_digit c2 = false ->
  d1 +:+ String c1 r1 = d2 +:+ String c2 r2 ->
  d1 = d2 /\ String c1 r1 = String c2 r2.
Proof.
  revert d2. induction d1 as [|a d1 IH]; intros [|b d2] H1 H2 Hc1 Hc2 E; simpl in *.
  - auto.
  - injection E as -> _. apply andb_true_iff in H2 as [H2 _]. congruence.
  - injection E as -> _. apply andb_true_iff in H1 as [H1 _]. congruence.
  - injection E as -> E.
    apply andb_true_iff in H1 as [_ H1]. apply andb_true_iff in H2 as [_ H2].
    destruct (IH d2 H1 H2 Hc1 Hc2 E) as [-> ?]. auto.
Qed.

Lemma image_filename_inj p i x p' i' x' :
  image_filename p i x = image_filename p' i' x' -> p = p' /\ i = i' /\ x = x'.
Proof.
  unfold image_filename. intros E. simpl in E.
  injection E as E.
  apply digits_then_other in E as [Ep E]; try apply str_digits; try reflexivity.
  simpl in E. injection E as E.
  apply digits_then_other in E as [Ei E]; try apply str_digits; try reflexivity.
  apply str_inj in Ep. apply str_inj in Ei. injection E as E.
  repeat split; [lia | done | done].
Qed.

Lemma path_join_inj (p : list string) c p' c' :
  (p / c)%path = (p' / c')%path -> p = p' /\ c = c'.
Proof. unfold path_join. intros E. apply app_inj_tail in E. done. Qed.

Lemma path_join_ne_self (p : list string) c : (p / c)%path <> p.
Proof.
  unfold path_join. intros E. apply (f_equal length) in E.
  rewrite length_app in E. simpl in E. lia.
Qed.

(** ** Replaying events on the file system *)

Lemma replay_cons ev evs f : replay (ev :: evs) f = replay evs (apply_event f ev).
Proof. reflexivity. Qed.

Lemma replay_untouched evs f p : p ∉ touches evs -> replay evs f !! p = f !! p.
Proof.
  revert f. induction evs as [|ev evs IH]; intros f Hp; [done|].
  rewrite replay_cons. simpl in Hp. rewrite not_elem_of_app in Hp. destruct Hp as [Hev Hp].
  rewrite IH by done.
  destruct ev as [s|q|q d]; simpl in *; [done| |];
    apply lookup_insert_ne; set_solver.
Qed.

(** A write that no later event overrides is what the file holds. *)
Lemma replay_last_write evs1 evs2 p d f :
  p ∉ touches evs2 ->
  replay (evs1 ++ Write p d :: evs2) f !! p = Some (File d).
Proof.
  intros Hp. rewrite replay_app, replay_cons, replay_untouched by done.
  simpl. apply lookup_insert_eq.
Qed.

Lemma replay_keeps_dir evs f p :
  p ∉ writes evs -> f !! p = Some Dir -> replay evs f !! p = Some Dir.
Proof.
  revert f. induction evs as [|ev evs IH]; intros f Hp Hf; [done|].
  rewrite replay_cons. simpl in Hp. rewrite not_elem_of_app in Hp. destruct Hp as [Hev Hp].
  apply IH; [done|].
  destruct ev as [s|q|q d]; simpl in *; [done| |].
  - destruct (decide (q = p)) as [->|Hne];
      [apply lookup_insert_eq | by rewrite lookup_insert_ne].
  - rewrite lookup_insert_ne; [done | set_solver].
Qed.

Lemma replay_last_mkdir evs1 evs2 p f :
  p ∉ writes evs2 ->
  replay (evs1 ++ Mkdir p :: evs2) f !! p = Some Dir.
Proof.
  intros Hp. rewrite replay_app, replay_cons.
  apply replay_keeps_dir; [done|]. simpl. apply lookup_insert_eq.
Qed.

Lemma touches_app evs1 evs2 : touches (evs1 ++ evs2) = touches evs1 ++ touches evs2.
Proof. unfold touches. apply flat_map_app. Qed.

Lemma writes_app evs1 evs2 : writes (evs1 ++ evs2) = writes evs1 ++ writes evs2.
Proof. unfold writes. apply flat_map_app. Qed.

(** ** The loop of [extract_images] *)

Lemma extract_one_run page pdf_name n dir i info refs st :
  extract_one page pdf_name n dir i info refs st =
    match attempt page (fs st) dir n (i, info) with
    | Ok (x, b) =>
        (Ok (refs ++ [image_ref pdf_name (image_filename n i x)]),
         extend st [Write (dir / image_filename n i x)%path (Bytes b)])
    | Raise e => (Raise e, st)
    end.
Proof.
  unfold extract_one, attempt, fetch, bind, call, getitem, ret, raise. simpl.
  destruct (parent_extract_image page (xref info)) as [bi|e]; [|done].
  destruct (image bi) as [b|]; [|done].
  destruct (ext bi) as [x|]; [|done].
  unfold write_file.
  destruct (fs st !! (dir / image_filename n i x)%path) as [[|d]|]; done.
Qed.

Lemma extract_step_run page pdf_name n dir slot refs st :
  extract_step page pdf_name n dir slot refs st =
    match attempt page (fs st) dir n slot with
    | Ok (x, b) =>
        (Ok (refs ++ [image_ref pdf_name (image_filename n (fst slot) x)]),
         extend st [Write (dir / image_filename n (fst slot) x)%path (Bytes b)])
    | Raise e => (Ok refs, extend st [Print (image_warning n (fst slot) e)])
    end.
Proof.
  destruct slot as [i info]. unfold extract_step, try_except.
  rewrite extract_one_run. simpl.
  destruct (attempt page (fs st) dir n (i, info)) as [[x b]|e]; done.
Qed.

(** The outcome of an attempt depends on the file system only through the
    kind of the node at the image path. *)
Lemma attempt_ext page f g dir n slot :
  (forall x, is_dir f (dir / image_filename n (fst slot) x)%path =
             is_dir g (dir / image_filename n (fst slot) x)%path) ->
  attempt page f dir n slot = attempt page g dir n slot.
Proof.
  intros H. unfold attempt. destruct (fetch page (snd slot)) as [[b x]|e]; [|done].
  specialize (H x). unfold is_dir in H.
  destruct (f !! (dir / image_filename n (fst slot) x)%path) as [[|d]|];
    destruct (g !! (dir / image_filename n (fst slot) x)%path) as [[|d']|];
    done.
Qed.

Lemma attempt_ok_not_dir page f dir n slot x b :
  attempt page f dir n slot = Ok (x, b) ->
  is_dir f (dir / image_filename n (fst slot) x)%path = false.
Proof.
  unfold attempt, is_dir. destruct (fetch page (snd slot)) as [[b' x']|]; [|done].
  destruct (f !! (dir / image_filename n (fst slot) x')%path) as [[|d]|] eqn:Ef;
    try done; intros [= -> ->]; by rewrite Ef.
Qed.

Lemma extract_loop_run page pdf_name n dir f0 slots refs st :
  (forall i x, is_dir (fs st) (dir / image_filename n i x)%path =
               is_dir f0 (dir / image_filename n i x)%path) ->
  for_in slots (extract_step page pdf_name n dir) refs st =
    (Ok (refs ++ map (ref_of pdf_name n) (extracted page f0 dir n slots)),
     extend st (slot_events page f0 dir n slots)).
Proof.
  revert refs st. induction slots as [|slot slots IH]; intros refs st Hinv.
  - simpl. unfold ret. by rewrite app_nil_r, extend_nil.
  - simpl. unfold bind. rewrite extract_step_run.
    rewrite (attempt_ext page (fs st) f0) by (intros x; apply Hinv).
    destruct (attempt page f0 dir n slot) as [[x b]|e] eqn:Ea.
    + rewrite IH.
      * rewrite extend_extend. simpl. by rewrite <- app_assoc.
      * intros i y. simpl.
        destruct (decide ((dir / image_filename n (fst slot) x)%path
                          = (dir / image_filename n i y)%path)) as [E|E].
        -- rewrite <- E, is_dir_insert_file.
           symmetry. by apply (attempt_ok_not_dir page f0 dir n slot x b).
        -- rewrite is_dir_insert_ne by done. apply Hinv.
    + rewrite IH; [by rewrite extend_extend | apply Hinv].
Qed.

Lemma extract_images_run page pdf_name n images_dir st info l :
  get_images page = Ok (info :: l) ->
  is_file (fs st) (images_dir / pdf_name)%path = false ->
  let dir := (images_dir / pdf_name)%path in
  let slots := enumerate 1 (info :: l) in
  extract_images page pdf_name n images_dir st =
    (Ok (map (ref_of pdf_name n) (extracted page (fs st) dir n slots)),
     extend st (Mkdir dir :: slot_events page (fs st) dir n slots)).
Proof.
  intros Hl Hnf dir slots. unfold extract_images, bind, call. rewrite Hl.
  rewrite (mkdir_ok _ _ Hnf).
  rewrite (extract_loop_run page pdf_name n dir (fs st)).
  - by rewrite extend_extend.
  - intros i x. simpl. apply is_dir_insert_ne.
    intros E. symmetry in E. by apply path_join_ne_self in E.
Qed.

Lemma extract_images_none page pdf_name n images_dir st :
  get_images page = Ok [] ->
  extract_images page pdf_name n images_dir st = (Ok [], st).
Proof. intros Hl. unfold extract_images, bind, call. by rewrite Hl. Qed.

Lemma extract_images_listing_fails page pdf_name n images_dir st e :
  get_images page = Raise e ->
  extract_images page pdf_name n images_dir st = (Raise e, st).
Proof. intros Hl. unfold extract_images, bind, call. by rewrite Hl. Qed.

Lemma extract_images_mkdir_fails page pdf_name n images_dir st info l :
  get_images page = Ok (info :: l) ->
  is_file (fs st) (images_dir / pdf_name)%path = true ->
  exists e, extract_images page pdf_name n images_dir st = (Raise e, st).
Proof.
  intros Hl Hf. unfold extract_images, bind, call. rewrite Hl.
  destruct (mkdir_fail _ _ Hf) as [e He]. rewrite He. eauto.
Qed.

(** ** Files and references of one page *)

Lemma enumerate_fst {A} k (l : list A) : map fst (enumerate k l) = seq k (length l).
Proof. revert k. induction l as [|x l IH]; intros k; simpl; [done | by rewrite IH]. Qed.

Lemma enumerate_app {A} k (l1 l2 : list A) :
  enumerate k (l1 ++ l2) = enumerate k l1 ++ enumerate (k + length l1) l2.
Proof.
  revert k. induction l1 as [|x l1 IH]; intros k; simpl.
  - by rewrite Nat.add_0_r.
  - rewrite IH. do 3 f_equal. lia.
Qed.

Lemma extracted_app page f dir n s1 s2 :
  extracted page f dir n (s1 ++ s2) = extracted page f dir n s1 ++ extracted page f dir n s2.
Proof. unfold extracted. apply flat_map_app. Qed.

Lemma slot_events_app page f dir n s1 s2 :
  slot_events page f dir n (s1 ++ s2) =
  slot_events page f dir n s1 ++ slot_events page f dir n s2.
Proof. unfold slot_events. apply map_app. Qed.

Lemma extracted_elem page f dir n slots i x b :
  (i, x, b) ∈ extracted page f dir n slots <->
  exists info, (i, info) ∈ slots /\ attempt page f dir n (i, info) = Ok (x, b).
Proof.
  induction slots as [|[j info] slots IH]; simpl.
  - split; [intros H; inversion H | intros (? & H & _); inversion H].
  - rewrite elem_of_app, IH. split.
    + intros [H|(info' & Hin & Ha)].
      * destruct (attempt page f dir n (j, info)) as [[y c]|e] eqn:Ea; [|inversion H].
        apply list_elem_of_singleton in H. injection H as -> -> ->.
        exists info. split; [left | done].
      * exists info'. split; [by right | done].
    + intros (info' & Hin & Ha). apply elem_of_cons in Hin as [[= -> ->]|Hin].
      * left. rewrite Ha. by left.
      * right. eauto.
Qed.

Lemma extracted_positions page f dir n slots :
  map (fun t => fst (fst t)) (extracted page f dir n slots) `sublist_of` map fst slots.
Proof.
  induction slots as [|slot slots IH]; simpl; [done|].
  rewrite map_app.
  destruct (attempt page f dir n slot) as [[x b]|e]; simpl.
  - by apply sublist_skip.
  - by apply sublist_cons.
Qed.

Lemma extracted_length page f dir n slots :
  length (extracted page f dir n slots) <= length slots.
Proof.
  induction slots as [|slot slots IH]; simpl; [done|].
  rewrite length_app. destruct (attempt page f dir n slot) as [[x b]|e]; simpl; lia.
Qed.

(** When every listed image is extracted, the positions are all of them. *)
Lemma extracted_all page f dir n slots :
  length (extracted page f dir n slots) = length slots ->
  map (fun t => fst (fst t)) (extracted page f dir n slots) = map fst slots.
Proof.
  induction slots as [|slot slots IH]; simpl; [done|].
  rewrite length_app, map_app. pose proof (extracted_length page f dir n slots).
  destruct (attempt page f dir n slot) as [[x b]|e]; simpl; intros Hl.
  - f_equal. apply IH. lia.
  - lia.
Qed.

Lemma slot_events_touches page f dir n slots p :
  p ∈ touches (slot_events page f dir n slots) ->
  exists i x, i ∈ map fst slots /\ p = (dir / image_filename n i x)%path.
Proof.
  induction slots as [|slot slots IH]; simpl; [intros H; inversion H|].
  rewrite elem_of_app. intros [H|H].
  - destruct (attempt page f dir n slot) as [[x b]|e]; simpl in H; [|inversion H].
    apply list_elem_of_singleton in H. exists (fst slot), x. split; [left | done].
  - destruct (IH H) as (i & x & Hi & ->). exists i, x. split; [by right | done].
Qed.

Lemma slot_events_no_mkdir page f dir n slots :
  touches (slot_events page f dir n slots) = writes (slot_events page f dir n slots).
Proof.
  induction slots as [|slot slots IH]; simpl; [done|]. rewrite IH.
  by destruct (attempt page f dir n slot) as [[x b]|e].
Qed.

Lemma image_path_inj (dir : list string) n i x n' i' x' :
  (dir / image_filename n i x)%path = (dir / image_filename n' i' x')%path ->
  n = n' /\ i = i' /\ x = x'.
Proof. intros E. apply path_join_inj in E as [_ E]. by apply image_filename_inj. Qed.

(** The files written in one pass over a listing are pairwise distinct. *)
Lemma slot_events_NoDup page f dir n slots :
  NoDup (map fst slots) -> NoDup (writes (slot_events page f dir n slots)).
Proof.
  induction slots as [|slot slots IH]; simpl; intros Hnd; [constructor|].
  apply NoDup_cons in Hnd as [Hfresh Hnd].
  destruct (attempt page f dir n slot) as [[x b]|e]; simpl; [|by apply IH].
  apply NoDup_cons. split; [|by apply IH].
  rewrite <- slot_events_no_mkdir. intros Hin.
  apply slot_events_touches in Hin as (i & y & Hi & E).
  apply image_path_inj in E as (_ & <- & _). done.
Qed.

(** Every image extracted is on disk, with its bytes, when the pass ends. *)
Lemma slot_events_files page f dir n slots g i x b :
  NoDup (map fst slots) ->
  (i, x, b) ∈ extracted page f dir n slots ->
  replay (slot_events page f dir n slots) g !! (dir / image_filename n i x)%path
    = Some (File (Bytes b)).
Proof.
  revert g. induction slots as [|slot slots IH]; intros g Hnd Hin; [inversion Hin|].
  simpl in Hnd. apply NoDup_cons in Hnd as [Hfresh Hnd].
  change (slot :: slots) with ([slot] ++ slots) in Hin |- *.
  rewrite slot_events_app, replay_app. rewrite extracted_app in Hin.
  apply elem_of_app in Hin as [Hin|Hin]; [|by apply IH].
  rewrite replay_untouched.
  - simpl in Hin |- *. rewrite app_nil_r in Hin.
    destruct (attempt page f dir n slot) as [[y c]|e]; [|inversion Hin].
    apply list_elem_of_singleton in Hin. injection Hin as -> -> ->.
    simpl. apply lookup_insert_eq.
  - simpl in Hin. rewrite app_nil_r in Hin.
    destruct (attempt page f dir n slot) as [[y c]|e]; [|inversion Hin].
    apply list_elem_of_singleton in Hin. injection Hin as -> -> ->.
    intros Hin. apply slot_events_touches in Hin as (i & z & Hi & E).
    apply image_path_inj in E as (_ & <- & _). done.
Qed.

Lemma NoDup_enumerate {A} k (l : list A) : NoDup (map fst (enumerate k l)).
Proof. rewrite enumerate_fst. apply NoDup_seq. Qed.

Lemma enumerate_elem {A} k (l : list A) i (a : A) :
  (i, a) ∈ enumerate k l <-> k <= i /\ l !! (i - k) = Some a.
Proof.
  revert k. induction l as [|x l IH]; intros k; simpl.
  - split; [intros H; inversion H | intros [_ H]; done].
  - rewrite elem_of_cons, IH. split.
    + intros [[= -> ->]|[Hk Hl]].
      * split; [lia|]. by rewrite Nat.sub_diag.
      * split; [lia|]. replace (i - k) with (S (i - S k)) by lia. done.
    + intros [Hk Hl]. destruct (decide (i = k)) as [->|Hne].
      * left. rewrite Nat.sub_diag in Hl. simpl in Hl. congruence.
      * right. split; [lia|]. replace (i - k) with (S (i - S k)) in Hl by lia. done.
Qed.

Lemma fs_extend st evs : fs (extend st evs) = replay evs (fs st).
Proof. reflexivity. Qed.

Lemma log_extend st evs : log (extend st evs) = log st ++ evs.
Proof. reflexivity. Qed.

Lemma string_app_cons x (a b : string) : String x a +:+ b = String x (a +:+ b).
Proof. reflexivity. Qed.

Lemma string_app_nil_l (b : string) : "" +:+ b = b.
Proof. reflexivity. Qed.

Lemma string_app_assoc (a b c : string) : (a +:+ b) +:+ c = a +:+ (b +:+ c).
Proof.
  induction a as [|x a IH]; [done|]. by rewrite !string_app_cons, IH.
Qed.

Lemma string_app_nil_r (a : string) : a +:+ "" = a.
Proof. induction a as [|x a IH]; [done|]. by rewrite string_app_cons, IH. Qed.

Lemma string_length_app (a b : string) :
  String.length (a +:+ b) = String.length a + String.length b.
Proof.
  induction a as [|x a IH]; [done|]. rewrite string_app_cons. simpl. by rewrite IH.
Qed.

Lemma string_app_inv_tail (s1 s2 t : string) : s1 +:+ t = s2 +:+ t -> s1 = s2.
Proof.
  intros E.
  assert (Hlen : String.length s1 = String.length s2).
  { apply (f_equal String.length) in E. rewrite !string_length_app in E. lia. }
  revert s2 E Hlen. induction s1 as [|a s1 IH]; intros [|b s2] E Hlen; simpl in Hlen; try done.
  rewrite !string_app_cons in E. injection E as -> E. f_equal. apply IH; [done | lia].
Qed.

Lemma image_ref_inj pdf_name f f' : image_ref pdf_name f = image_ref pdf_name f' -> f = f'.
Proof.
  unfold image_ref. intros E.
  apply (inj (String.app "![Image](")) in E.
  apply (string_app_inv_tail _ _ ")").
  rewrite !string_app_assoc in E.
  apply (inj (String.app "images/")) in E.
  apply (inj (String.app pdf_name)) in E.
  by apply (inj (String.app "/")) in E.
Qed.

Lemma extracted_all_ok page f dir n slots :
  (forall slot, slot ∈ slots -> exists x b, attempt page f dir n slot = Ok (x, b)) ->
  map (fun t => fst (fst t)) (extracted page f dir n slots) = map fst slots.
Proof.
  intros Hok. apply extracted_all.
  induction slots as [|slot slots IH]; [done|]. simpl. rewrite length_app.
  destruct (Hok slot) as (x & b & Ha); [left|]. rewrite Ha. simpl.
  f_equal. apply IH. intros s Hs. apply Hok. by right.
Qed.

Lemma enumerate_length {A} k (l : list A) : length (enumerate k l) = length l.
Proof. by rewrite <- (length_map fst), enumerate_fst, length_seq. Qed.

(** The extracted images are at the positions 1..K exactly when the first
    K listed images are the ones extracted. *)
Lemma extracted_first_positions page f dir n (l : list ImgInfo) :
  let got := extracted page f dir n (enumerate 1 l) in
  map (fun t => fst (fst t)) got = seq 1 (length got)
  <-> (forall i info, 1 <= i <= length got -> l !! (i - 1) = Some info ->
         exists x b, attempt page f dir n (i, info) = Ok (x, b)).
Proof.
  intros got. split.
  - intros Hpos i info Hi Hl.
    assert (Hin : i ∈ map (fun t => fst (fst t)) got).
    { rewrite Hpos. apply elem_of_seq. lia. }
    apply list_elem_of_fmap in Hin as ([[j x] b] & Hj & Ht). simpl in Hj. subst j.
    apply extracted_elem in Ht as (info' & Hin' & Ha).
    apply enumerate_elem in Hin' as [_ Hl']. rewrite Hl in Hl'. injection Hl' as <-.
    eauto.
  - intros Hfirst. set (K := length got) in *.
    assert (HK : K <= length l).
    { unfold K, got. rewrite <- (enumerate_length 1 l). apply extracted_length. }
    assert (Hsplit : got = extracted page f dir n (enumerate 1 (take K l))
                           ++ extracted page f dir n (enumerate (1 + K) (drop K l))).
    { unfold got. rewrite <- (take_drop K l) at 1.
      rewrite enumerate_app, extracted_app, length_take. do 3 f_equal. lia. }
    assert (H1 : map (fun t => fst (fst t))
                   (extracted page f dir n (enumerate 1 (take K l))) = seq 1 K).
    { rewrite extracted_all_ok.
      - rewrite enumerate_fst, length_take. f_equal. lia.
      - intros [i info] Hin. apply enumerate_elem in Hin as [Hi Hl].
        apply lookup_take_Some in Hl as [Hl Hlt]. apply (Hfirst i info); [lia | done]. }
    assert (H2 : extracted page f dir n (enumerate (1 + K) (drop K l)) = []).
    { apply (f_equal length) in Hsplit. rewrite length_app in Hsplit.
      fold K in Hsplit. apply (f_equal length) in H1.
      rewrite length_map, length_seq in H1. rewrite H1 in Hsplit.
      destruct (extracted page f dir n (enumerate (1 + K) (drop K l))); [done|].
      simpl in Hsplit. lia. }
    rewrite Hsplit, H2, app_nil_r. exact H1.
Qed.

(** C1, as amended.  For a page whose listing succeeds and whose image
    directory can be made (no regular file stands in its place),
    [extract_images] returns one reference line per image extracted (K
    lines for K of them), in the order of the listing.  The image listed
    at position i (counted from 1 over the whole listing, failed images
    included) is written to [page<n+1>_img<i>.<ext>] with the extension
    detected, and when the function returns that file holds exactly the
    bytes extracted, so its size is the size of the payload.  The
    positions used are those of the listing: the files are [img1], ..,
    [imgK] exactly when the first K listed images are the ones extracted,
    as when every listed image is extracted. *)
Theorem extract_images_references page pdf_name n images_dir st l :
  get_images page = Ok l ->
  is_file (fs st) (images_dir / pdf_name)%path = false ->
  let dir := (images_dir / pdf_name)%path in
  let got := extracted page (fs st) dir n (enumerate 1 l) in
  exists st',
    extract_images page pdf_name n images_dir st
      = (Ok (map (ref_of pdf_name n) got), st')
    /\ (forall i x b, (i, x, b) ∈ got <->
          exists info, 1 <= i /\ l !! (i - 1) = Some info
                       /\ attempt page (fs st) dir n (i, info) = Ok (x, b))
    /\ (forall i x b, (i, x, b) ∈ got ->
          fs st' !! (dir / image_filename n i x)%path = Some (File (Bytes b))
          /\ file_size (fs st') (dir / image_filename n i x)%path = Some (length b))
    /\ (length got = length l ->
          map (fun t => fst (fst t)) got = seq 1 (length l))
    /\ (map (fun t => fst (fst t)) got = seq 1 (length got)
        <-> forall i info, 1 <= i <= length got -> l !! (i - 1) = Some info ->
              exists x b, attempt page (fs st) dir n (i, info) = Ok (x, b)).
Proof.
  intros Hl Hnf dir got.
  assert (Hmem : forall i x b, (i, x, b) ∈ got <->
            exists info, 1 <= i /\ l !! (i - 1) = Some info
                         /\ attempt page (fs st) dir n (i, info) = Ok (x, b)).
  { intros i x b. unfold got. rewrite extracted_elem. split.
    - intros (info & Hin & Ha). apply enumerate_elem in Hin as [H1 H2]. eauto.
    - intros (info & H1 & H2 & Ha). exists info. split; [|done].
      by apply enumerate_elem. }
  assert (Hall : length got = length l ->
            map (fun t => fst (fst t)) got = seq 1 (length l)).
  { intros Hlen. rewrite <- (enumerate_fst 1 l). apply extracted_all.
    fold got. rewrite Hlen.
    rewrite <- (length_map fst (enumerate 1 l)), enumerate_fst. by rewrite length_seq. }
  pose proof (extracted_first_positions page (fs st) dir n l) as Hfirst.
  cbv zeta in Hfirst. fold got in Hfirst.
  destruct l as [|info l].
  - exists st. rewrite (extract_images_none _ _ _ _ _ Hl).
    split; [reflexivity|]. split; [done|]. split; [|done].
    intros i x b Hin. inversion Hin.
  - set (st' := extend st (Mkdir dir :: slot_events page (fs st) dir n
                                       (enumerate 1 (info :: l)))).
    exists st'. split; [by apply extract_images_run|]. split; [done|]. split; [|done].
    intros i x b Hin.
    assert (Hfile : fs st' !! (dir / image_filename n i x)%path = Some (File (Bytes b))).
    { unfold st'. rewrite fs_extend, replay_cons.
      apply slot_events_files; [apply NoDup_enumerate | done]. }
    split; [done|]. unfold file_size. by rewrite Hfile.
Qed.

Lemma extract_images_references_witness :
  get_images page_bad_good = Ok [ {| xref := 7 |}; {| xref := 8 |} ] /\
  is_file (fs empty_state) (["images"] / "nota")%path = false /\
  exists st',
    extract_images page_bad_good "nota" 0 ["images"] empty_state
      = (Ok ["![Image](images/nota/page1_img2.png)"], st').
Proof.
  split; [reflexivity|]. split; [reflexivity|].
  destruct (extract_images_references page_bad_good "nota" 0 ["images"] empty_state
              [ {| xref := 7 |}; {| xref := 8 |} ] eq_refl eq_refl) as (st' & Hrun & _).
  exists st'. exact Hrun.
Defined.

(** C1, as stated, fails.  A page lists two images and the first cannot be
    extracted: one image is extracted (K = 1), and its file is
    [page1_img2.png], not [page1_img1.png], which does not exist.  A page
    whose only image has an empty payload gets a reference to a file of
    size zero. *)
Lemma extract_images_names_follow_listing :
  (let '(refs, st') := extract_images page_bad_good "nota" 0 ["images"] empty_state in
   refs = Ok ["![Image](images/nota/page1_img2.png)"]
   /\ fs st' !! ["images"; "nota"; "page1_img1.png"] = None
   /\ file_size (fs st') ["images"; "nota"; "page1_img2.png"] = Some 4)
  /\
  (let '(refs, st') := extract_images page_empty_image "nota" 0 ["images"] empty_state in
   refs = Ok ["![Image](images/nota/page1_img1.png)"]
   /\ file_size (fs st') ["images"; "nota"; "page1_img1.png"] = Some 0).
Proof. vm_compute. repeat split. Qed.

Lemma extracted_position page f dir n slots t :
  t ∈ extracted page f dir n slots -> fst (fst t) ∈ map fst slots.
Proof.
  destruct t as [[i x] b]. rewrite extracted_elem. intros (info & Hin & _).
  simpl. apply list_elem_of_fmap. by exists (i, info).
Qed.

(** C5.  When the listing of a page succeeds and the image directory can
    be made (no regular file stands in its place), [extract_images]
    returns normally whatever happens to the single images.  If the image
    listed at position [idx] fails with an exception of message [msg], the
    line [    Warning: Could not extract image <idx> from page <n+1>: <msg>]
    is printed, the references returned are those of the images before it
    followed by those of the images after it (which are still attempted,
    under their own positions), none of them refers to position [idx],
    and no file is written for it. *)
Theorem failed_image_is_skipped page pdf_name n images_dir st pre bad post msg :
  get_images page = Ok (pre ++ bad :: post) ->
  is_file (fs st) (images_dir / pdf_name)%path = false ->
  let dir := (images_dir / pdf_name)%path in
  let idx := S (length pre) in
  attempt page (fs st) dir n (idx, bad) = Raise (Exception msg) ->
  exists refs evs,
    extract_images page pdf_name n images_dir st = (Ok refs, extend st evs)
    /\ refs = map (ref_of pdf_name n) (extracted page (fs st) dir n (enumerate 1 pre))
              ++ map (ref_of pdf_name n)
                   (extracted page (fs st) dir n (enumerate (S idx) post))
    /\ Print ("    Warning: Could not extract image " +:+ str idx +:+ " from page "
              +:+ str (n + 1) +:+ ": " +:+ msg) ∈ evs
    /\ (forall x, image_ref pdf_name (image_filename n idx x) ∉ refs)
    /\ (forall x, (dir / image_filename n idx x)%path ∉ writes evs).
Proof.
  intros Hl Hnf dir idx Hbad.
  assert (Hsl : enumerate 1 (pre ++ bad :: post)
                = enumerate 1 pre ++ [(idx, bad)] ++ enumerate (S idx) post).
  { rewrite enumerate_app. simpl. reflexivity. }
  destruct (pre ++ bad :: post) as [|info l] eqn:El.
  { by destruct pre. }
  pose proof (extract_images_run page pdf_name n images_dir st info l Hl Hnf) as Hrun.
  cbv zeta in Hrun. fold dir in Hrun.
  set (slots := enumerate 1 (info :: l)) in *.
  assert (Hpos : map fst slots
                 = seq 1 (length pre) ++ [idx] ++ seq (S idx) (length post)).
  { rewrite Hsl, !map_app, !enumerate_fst. reflexivity. }
  clearbody slots.
  assert (Hidx : forall t, t ∈ extracted page (fs st) dir n slots -> fst (fst t) <> idx).
  { intros t. rewrite Hsl, !extracted_app. simpl. rewrite Hbad. simpl.
    rewrite elem_of_app. intros [Ht|Ht]; apply extracted_position in Ht;
      rewrite enumerate_fst in Ht; apply elem_of_seq in Ht; unfold idx; lia. }
  exists (map (ref_of pdf_name n) (extracted page (fs st) dir n slots)),
         (Mkdir dir :: slot_events page (fs st) dir n slots).
  split; [exact Hrun|]. split; [|split; [|split]].
  - rewrite Hsl, !extracted_app, !map_app. simpl. by rewrite Hbad.
  - right. rewrite Hsl, !slot_events_app. simpl. rewrite Hbad.
    apply elem_of_app. right. left.
  - intros x Hin. apply list_elem_of_fmap in Hin as (t & Eref & Ht).
    unfold ref_of in Eref. apply image_ref_inj, image_filename_inj in Eref as (_ & Ei & _).
    by apply (Hidx t).
  - intros x Hin. change (writes (Mkdir dir :: ?l)) with (writes l) in Hin.
    rewrite Hsl, !slot_events_app, !writes_app in Hin. simpl in Hin. rewrite Hbad in Hin.
    simpl in Hin. rewrite <- !slot_events_no_mkdir in Hin.
    apply elem_of_app in Hin as [Hin|Hin];
      apply slot_events_touches in Hin as (i & y & Hi & E);
      apply image_path_inj in E as (_ & <- & _);
      rewrite enumerate_fst in Hi; apply elem_of_seq in Hi; unfold idx in *; lia.
Qed.

Lemma failed_image_is_skipped_witness :
  get_images page_bad_good = Ok ([] ++ {| xref := 7 |} :: [ {| xref := 8 |} ]) /\
  is_file (fs empty_state) (["images"] / "nota")%path = false /\
  attempt page_bad_good (fs empty_state) (["images"] / "nota")%path 0 (1, {| xref := 7 |})
    = Raise (Exception "bad image") /\
  exists refs evs,
    extract_images page_bad_good "nota" 0 ["images"] empty_state
      = (Ok refs, extend empty_state evs)
    /\ refs = ["![Image](images/nota/page1_img2.png)"]
    /\ Print "    Warning: Could not extract image 1 from page 1: bad image" ∈ evs.
Proof.
  split; [reflexivity|]. split; [reflexivity|]. split; [reflexivity|].
  destruct (failed_image_is_skipped page_bad_good "nota" 0 ["images"] empty_state
              [] {| xref := 7 |} [ {| xref := 8 |} ] "bad image"
              eq_refl eq_refl eq_refl) as (refs & evs & Hrun & Hrefs & Hwarn & _).
  exists refs, evs. split; [exact Hrun|]. split; [exact Hrefs | exact Hwarn].
Defined.

(** C10.  With the listing of the page at hand:
    - a page that lists no image leaves the state as it is: nothing is
      created, written or printed;
    - a page that lists at least one image has its per-document directory
      created (when no regular file stands in its place), also when every
      extraction fails: then no reference is returned and the directory
      is the only change of the file system. *)
Theorem extract_images_directory page pdf_name n images_dir st l :
  get_images page = Ok l ->
  is_file (fs st) (images_dir / pdf_name)%path = false ->
  let dir := (images_dir / pdf_name)%path in
  exists refs evs,
    extract_images page pdf_name n images_dir st = (Ok refs, extend st evs)
    /\ (Mkdir dir ∈ evs <-> l <> [])
    /\ (l = [] -> refs = [] /\ evs = [] /\ extend st evs = st)
    /\ (l <> [] -> is_dir (fs (extend st evs)) dir = true)
    /\ (l <> [] ->
        (forall slot, slot ∈ enumerate 1 l ->
           exists e, attempt page (fs st) dir n slot = Raise e) ->
        refs = [] /\ writes evs = [] /\ fs (extend st evs) = <[dir := Dir]> (fs st)).
Proof.
  intros Hl Hnf dir. destruct l as [|info l].
  - exists [], []. rewrite extend_nil, (extract_images_none _ _ _ _ _ Hl).
    split; [done|]. split; [|done].
    split; [intros H; inversion H | done].
  - set (slots := enumerate 1 (info :: l)).
    exists (map (ref_of pdf_name n) (extracted page (fs st) dir n slots)),
           (Mkdir dir :: slot_events page (fs st) dir n slots).
    split; [by apply extract_images_run|].
    split; [split; [done | intros _; left]|].
    split; [done|]. split.
    + intros _. rewrite fs_extend, replay_cons. unfold is_dir.
      rewrite replay_keeps_dir; [done| |apply lookup_insert_eq].
      rewrite <- slot_events_no_mkdir. intros Hin.
      apply slot_events_touches in Hin as (i & x & _ & E).
      symmetry in E. by apply path_join_ne_self in E.
    + intros _ Hfail.
      assert (Hno : extracted page (fs st) dir n slots = []
                    /\ writes (slot_events page (fs st) dir n slots) = []
                    /\ forall g, replay (slot_events page (fs st) dir n slots) g = g).
      { clearbody slots. induction slots as [|slot slots IH]; [done|].
        destruct (Hfail slot) as [e He]; [left|].
        destruct IH as (IH1 & IH2 & IH3); [intros s Hs; apply Hfail; by right|].
        split; [|split].
        - simpl. rewrite He. exact IH1.
        - simpl. rewrite He. exact IH2.
        - intros g. change (slot :: slots) with ([slot] ++ slots).
          rewrite slot_events_app, replay_app, IH3. simpl. by rewrite He. }
      destruct Hno as (H1 & H2 & H3).
      rewrite H1. split; [done|]. split; [done|].
      rewrite fs_extend, replay_cons. apply H3.
Qed.

Lemma extract_images_directory_witness :
  get_images page_bad_only = Ok [ {| xref := 7 |} ] /\
  is_file (fs empty_state) (["images"] / "nota")%path = false /\
  exists refs evs,
    extract_images page_bad_only "nota" 0 ["images"] empty_state
      = (Ok refs, extend empty_state evs)
    /\ is_dir (fs (extend empty_state evs)) (["images"] / "nota")%path = true.
Proof.
  split; [reflexivity|]. split; [reflexivity|].
  destruct (extract_images_directory page_bad_only "nota" 0 ["images"] empty_state
              [ {| xref := 7 |} ] eq_refl eq_refl) as (refs & evs & Hrun & _ & _ & Hdir & _).
  exists refs, evs. split; [exact Hrun|]. by apply Hdir.
Defined.

(** ** Trimming and splitting *)

Lemma all_chars_app P (a b : string) :
  all_chars P (a +:+ b) = all_chars P a && all_chars P b.
Proof.
  induction a as [|x a IH]; [done|].
  rewrite string_app_cons. simpl. by rewrite IH, andb_assoc.
Qed.

Lemma lstrip_spec s :
  exists a, s = a +:+ lstrip s /\ blank a = true /\
            (forall c, first_char (lstrip s) = Some c -> is_space c = false).
Proof.
  induction s as [|x s (a & Ha & Hb & Hc)]; simpl.
  - exists "". done.
  - destruct (is_space x) eqn:Ex.
    + exists (String x a). rewrite string_app_cons, <- Ha.
      split; [done|]. split; [|done]. unfold blank. simpl. by rewrite Ex.
    + exists "". split; [done|]. split; [done|]. simpl. by intros c [= <-].
Qed.

Lemma rstrip_cons x s :
  rstrip (String x s) =
    match rstrip s with
    | EmptyString => if is_space x then EmptyString else String x EmptyString
    | String y r => String x (String y r)
    end.
Proof. simpl. by destruct (rstrip s). Qed.

Lemma rstrip_spec s :
  exists b, s = rstrip s +:+ b /\ blank b = true /\
            (forall c, last_char (rstrip s) = Some c -> is_space c = false).
Proof.
  induction s as [|x s (b & Hb & Hbl & Hc)].
  - exists "". done.
  - rewrite rstrip_cons. destruct (rstrip s) as [|y r] eqn:Er.
    + destruct (is_space x) eqn:Ex.
      * exists (String x s). split; [done|]. split; [|done].
        unfold blank in *. simpl. rewrite Ex. simpl. rewrite Hb. done.
      * exists s. split; [reflexivity|]. split; [rewrite Hb; exact Hbl|].
        simpl. by intros c [= <-].
    + exists b. split; [by rewrite string_app_cons, <- Hb|]. split; [done|].
      intros c Hl. apply Hc. exact Hl.
Qed.

Lemma rstrip_first s c :
  first_char s = Some c -> is_space c = false -> first_char (rstrip s) = Some c.
Proof.
  destruct s as [|x s]; [done|]. simpl first_char at 1. intros [= ->] Hc.
  rewrite rstrip_cons. destruct (rstrip s); [by rewrite Hc | done].
Qed.

Lemma rstrip_first_inv s c : first_char (rstrip s) = Some c -> first_char s = Some c.
Proof.
  destruct s as [|x s]; [done|]. rewrite rstrip_cons.
  destruct (rstrip s); [destruct (is_space x)|]; done.
Qed.

(** [strip] removes a run of white space at each end, and what is left
    neither starts nor ends with white space. *)
Lemma strip_spec s :
  exists a b, s = a +:+ strip s +:+ b /\ blank a = true /\ blank b = true /\ trimmed (strip s).
Proof.
  destruct (lstrip_spec s) as (a & Ha & Hab & Hfirst).
  destruct (rstrip_spec (lstrip s)) as (b & Hb & Hbb & Hlast).
  exists a, b. unfold strip. rewrite <- Hb, <- Ha.
  split; [done|]. split; [done|]. split; [done|]. split; [|done].
  intros c Hc. apply Hfirst. by apply rstrip_first_inv.
Qed.

Lemma strip_blank s : blank s = true -> strip s = "".
Proof.
  intros Hs. unfold strip.
  assert (Hl : lstrip s = "").
  { induction s as [|x s IH]; [done|]. unfold blank in Hs. simpl in Hs.
    apply andb_true_iff in Hs as [Hx Hs]. simpl. rewrite Hx. by apply IH. }
  by rewrite Hl.
Qed.

Lemma strip_not_blank s : blank s = false -> strip s <> "".
Proof.
  intros Hs Hstrip. destruct (strip_spec s) as (a & b & E & Ha & Hb & _).
  rewrite Hstrip in E. rewrite string_app_nil_l in E.
  rewrite E in Hs. unfold blank in *. rewrite all_chars_app, Ha, Hb in Hs. done.
Qed.

Lemma truthy_strip s : truthy (strip s) = negb (blank s).
Proof.
  destruct (blank s) eqn:E.
  - by rewrite strip_blank.
  - apply strip_not_blank in E. by destruct (strip s).
Qed.

Lemma truthy_true s : truthy s = true <-> s <> "".
Proof. by destruct s. Qed.

Lemma process_lines_filter lines acc :
  process_lines lines acc = acc ++ filter (fun l : string => l <> "") (map strip lines).
Proof.
  revert acc. induction lines as [|line lines IH]; intros acc; simpl.
  - by rewrite app_nil_r.
  - rewrite IH, filter_cons.
    destruct (decide (strip line <> "")) as [Hne|He].
    + rewrite (proj2 (truthy_true _) Hne). by rewrite <- app_assoc.
    + assert (E : strip line = "") by (destruct (strip line); [done | by destruct He]).
      by rewrite E.
Qed.

Lemma split_cons_lf s : split LF (String LF s) = "" :: split LF s.
Proof. reflexivity. Qed.

Lemma split_nonempty sep s : split sep s <> [].
Proof.
  destruct s as [|c s]; simpl; [done|].
  destruct (Ascii.eqb c sep); [done|]. by destruct (split sep s).
Qed.

Lemma split_cons_other c s :
  Ascii.eqb c LF = false ->
  split LF (String c s) =
    match split LF s with h :: t => String c h :: t | [] => [String c ""] end.
Proof. intros H. simpl. by rewrite H. Qed.

Lemma split_no_lf s : no_lf s = true -> split LF s = [s].
Proof.
  induction s as [|c s IH]; [done|]. unfold no_lf. simpl.
  intros H. apply andb_true_iff in H as [Hc Hs]. apply negb_true_iff in Hc.
  rewrite Hc. by rewrite IH.
Qed.

Lemma split_lines_no_lf s : Forall (fun l => no_lf l = true) (split LF s).
Proof.
  induction s as [|c s IH]; [by repeat constructor|].
  destruct (Ascii.eqb c LF) eqn:Ec.
  - simpl. rewrite Ec. by constructor.
  - rewrite split_cons_other by done.
    destruct (split LF s) as [|h t] eqn:Es; [by destruct (split_nonempty LF s)|].
    inversion IH as [|? ? Hh Ht]; subst. constructor; [|done].
    unfold no_lf. simpl. by rewrite Ec.
Qed.

(** Splitting a text made of a first line without line feed, a line feed
    and a rest. *)
Lemma split_app_lf a b :
  no_lf a = true -> split LF (a +:+ nl +:+ b) = a :: split LF b.
Proof.
  induction a as [|c a IH]; intros Ha.
  - reflexivity.
  - unfold no_lf in Ha. simpl in Ha. apply andb_true_iff in Ha as [Hc Ha].
    apply negb_true_iff in Hc.
    rewrite string_app_cons, split_cons_other by done. by rewrite IH.
Qed.

Lemma split_app a b :
  split LF (a +:+ nl +:+ b) = split LF a ++ split LF b.
Proof.
  induction a as [|c a IH].
  - reflexivity.
  - rewrite string_app_cons. destruct (Ascii.eqb c LF) eqn:Ec.
    + apply Ascii.eqb_eq in Ec as ->. rewrite !split_cons_lf, IH. done.
    + rewrite !split_cons_other by done. rewrite IH.
      destruct (split LF a) as [|h t] eqn:Es; [by destruct (split_nonempty LF a)|]. done.
Qed.

Lemma join_cons sep x y l : join sep (x :: y :: l) = x +:+ sep +:+ join sep (y :: l).
Proof. reflexivity. Qed.

Lemma join_singleton sep x : join sep [x] = x.
Proof. reflexivity. Qed.

(** The lines of a text joined with line feeds are the lines of its parts. *)
Lemma split_join l : l <> [] -> split LF (join nl l) = flat_map (split LF) l.
Proof.
  induction l as [|x l IH]; [done|]. intros _.
  destruct l as [|y l].
  - rewrite join_singleton. simpl. by rewrite app_nil_r.
  - rewrite join_cons, split_app, IH by done. done.
Qed.

Lemma split_join_lines l :
  l <> [] -> Forall (fun x => no_lf x = true) l -> split LF (join nl l) = l.
Proof.
  intros Hne Hl. rewrite split_join by done. clear Hne.
  induction Hl as [|x l Hx Hl IH]; [done|]. simpl. by rewrite split_no_lf, IH.
Qed.

Lemma lstrip_no_lf s : no_lf s = true -> no_lf (lstrip s) = true.
Proof.
  induction s as [|c s IH]; [done|]. intros H. simpl.
  destruct (is_space c); [|done].
  unfold no_lf in H. simpl in H. apply andb_true_iff in H as [_ H]. by apply IH.
Qed.

Lemma rstrip_no_lf s : no_lf s = true -> no_lf (rstrip s) = true.
Proof.
  intros H. destruct (rstrip_spec s) as (b & E & _).
  rewrite E in H. unfold no_lf in *. rewrite all_chars_app in H.
  by apply andb_true_iff in H as [H _].
Qed.

Lemma strip_no_lf s : no_lf s = true -> no_lf (strip s) = true.
Proof. intros H. unfold strip. by apply rstrip_no_lf, lstrip_no_lf. Qed.

(** ** The text of a page *)

Lemma blank_cons c s : blank (String c s) = is_space c && blank s.
Proof. reflexivity. Qed.

Lemma not_blank_line text :
  blank text = false -> exists l, l ∈ split LF text /\ blank l = false.
Proof.
  induction text as [|c s IH]; [done|]. rewrite blank_cons. intros Hb.
  destruct (Ascii.eqb c LF) eqn:Ec.
  - apply Ascii.eqb_eq in Ec as ->. rewrite split_cons_lf.
    destruct (IH Hb) as (l & Hin & Hl). exists l. split; [by right | done].
  - rewrite split_cons_other by done.
    destruct (split LF s) as [|h t] eqn:Es; [by destruct (split_nonempty LF s)|].
    destruct (is_space c) eqn:Ex.
    + destruct (IH Hb) as (l & Hin & Hl). apply elem_of_cons in Hin as [->|Hin].
      * exists (String c h). split; [left|]. by rewrite blank_cons, Ex.
      * exists l. split; [by right | done].
    + exists (String c h). split; [left|]. by rewrite blank_cons, Ex.
Qed.

Lemma text_fragments_eq n text :
  text_fragments n text =
    if blank text then []
    else [page_heading n;
          join nl (filter (fun l : string => l <> "") (map strip (split LF text)));
          nl].
Proof.
  unfold text_fragments. rewrite truthy_strip, process_lines_filter.
  by destruct (blank text).
Qed.

Lemma convert_page_run doc pdf_name images_dir n mc st page text r st' :
  load_page doc n = Ok page ->
  get_text page = Ok text ->
  extract_images page pdf_name n images_dir st = (r, st') ->
  convert_page doc pdf_name images_dir n mc st =
    (match r with
     | Ok refs => Ok ((mc ++ text_fragments n text) ++ image_fragments n refs)
     | Raise e => Raise e
     end, st').
Proof.
  intros Hp Ht Hr. unfold convert_page, bind, call, ret. rewrite Hp, Ht, Hr.
  by destruct r.
Qed.

(** Joining the lines of a text with line feeds gives the text back. *)
Lemma join_split s : join nl (split LF s) = s.
Proof.
  induction s as [|c s IH]; [reflexivity|].
  simpl. destruct (Ascii.eqb_spec c LF) as [->|Hc].
  - destruct (split LF s) as [|h t] eqn:E; [by apply split_nonempty in E|].
    rewrite join_cons, IH. reflexivity.
  - destruct (split LF s) as [|h t] eqn:E; [by apply split_nonempty in E|].
    destruct t as [|h' t].
    + rewrite join_singleton in *. by rewrite IH.
    + rewrite join_cons in *. rewrite string_app_cons. by rewrite IH.
Qed.

(** The white space of [strip], character by character. *)
Lemma is_space_codes c :
  is_space c = true
  <-> In (nat_of_ascii c) [9; 10; 11; 12; 13; 28; 29; 30; 31; 32; 133; 160].
Proof.
  unfold is_space. cbv zeta.
  rewrite !orb_true_iff, !andb_true_iff, !Nat.leb_le, !Nat.eqb_eq. simpl. lia.
Qed.



(** ** The title line *)

Lemma replace_length old new s : String.length (replace old new s) = String.length s.
Proof. induction s as [|c s IH]; simpl; [done | by rewrite IH]. Qed.

Lemma title_go_length prev s : String.length (title_go prev s) = String.length s.
Proof. revert prev. induction s as [|c s IH]; intros prev; simpl; [done | by rewrite IH]. Qed.

Lemma is_cased_replaced c :
  is_cased (if Ascii.eqb c "-" then " "%char else c) = is_cased c.
Proof.
  destruct (Ascii.eqb c "-") eqn:E; [|done]. apply Ascii.eqb_eq in E as ->. reflexivity.
Qed.

Lemma title_go_get s prev i c :
  String.get i s = Some c ->
  String.get i (title_go prev (replace "-" " " s)) =
    Some (if Ascii.eqb c "-" then " "%char
          else if (match i with
                   | 0 => prev
                   | S j => match String.get j s with
                            | Some p => is_cased p
                            | None => false
                            end
                   end)
               then to_lower c else to_upper c).
Proof.
  revert prev i. induction s as [|x s IH]; intros prev i Hget; [by destruct i|].
  destruct i as [|j]; simpl in Hget |- *.
  - injection Hget as ->. destruct (Ascii.eqb c "-") eqn:E; [by destruct prev | done].
  - rewrite (IH _ _ Hget), is_cased_replaced. destruct j as [|j]; [|done].
    simpl. done.
Qed.

(** The cased characters are the letters of the two alphabets, and the
    case conversions follow the alphabets. *)
Lemma cased_letters c :
  is_cased c = is_letter c
  /\ to_upper c = (if is_letter c then capital_of c else c)
  /\ to_lower c = (if is_letter c then small_of c else c).
Proof.
  destruct c as [[] [] [] [] [] [] [] []]; vm_compute; repeat split; congruence.
Qed.



(** ** The page loop: events and files *)

Lemma touches_elem evs p : p ∈ touches evs <-> Mkdir p ∈ evs \/ p ∈ writes evs.
Proof.
  induction evs as [|ev evs IH]; simpl.
  - split; [intros H; inversion H | intros [H|H]; inversion H].
  - rewrite !elem_of_app, IH, elem_of_cons. destruct ev as [s|q|q d]; simpl.
    + split; [intros [H|[H|H]]; [inversion H|auto|auto]
             | intros [[H|H]|[H|H]]; [done|auto|inversion H|auto]].
    + rewrite list_elem_of_singleton.
      split; [intros [->|[H|H]]; auto | intros [[[= ->]|H]|[H|H]]; auto; inversion H].
    + rewrite list_elem_of_singleton.
      split; [intros [->|[H|H]]; auto | intros [[H|H]|[->|H]]; auto; done].
Qed.

Lemma writes_elem evs p : p ∈ writes evs <-> exists d, Write p d ∈ evs.
Proof.
  induction evs as [|ev evs IH]; simpl.
  - split; [intros H; inversion H | intros [d H]; inversion H].
  - rewrite elem_of_app, IH. split.
    + intros [H|[d H]].
      * destruct ev as [s|q|q d]; simpl in H; try (by inversion H).
        apply list_elem_of_singleton in H as ->. exists d. left.
      * exists d. by right.
    + intros [d H]. apply elem_of_cons in H as [<-|H]; [left; left | right; eauto].
Qed.

(** When the files written are pairwise distinct and none of them is later
    turned into a directory, every write is still on disk at the end. *)
Lemma replay_writes_persist evs f q d :
  NoDup (writes evs) ->
  (forall p, Mkdir p ∈ evs -> p ∉ writes evs) ->
  Write q d ∈ evs ->
  replay evs f !! q = Some (File d).
Proof.
  intros Hnd Hmk Hin.
  apply list_elem_of_split in Hin as (e1 & e2 & ->).
  apply replay_last_write. rewrite touches_elem. intros [Hm|Hw].
  - apply (Hmk q).
    + apply elem_of_app. right. by right.
    + rewrite writes_app. apply elem_of_app. right. simpl. left.
  - rewrite writes_app in Hnd. simpl in Hnd.
    apply NoDup_app in Hnd as (_ & _ & Hnd). apply NoDup_cons in Hnd as [Hq _]. done.
Qed.

Lemma slot_events_in page f dir n slots :
  Forall (image_event_in dir n (S n)) (slot_events page f dir n slots).
Proof.
  apply Forall_forall. intros ev Hin. unfold slot_events in Hin.
  apply list_elem_of_fmap in Hin as (slot & -> & _).
  destruct (attempt page f dir n slot) as [[x b]|e]; simpl; [|done].
  exists n, (fst slot), x. split; [lia | done].
Qed.

Lemma image_event_in_mono dir lo hi lo' hi' ev :
  lo' <= lo -> hi <= hi' -> image_event_in dir lo hi ev -> image_event_in dir lo' hi' ev.
Proof.
  intros H1 H2. destruct ev as [s|p|p d]; simpl; try done.
  intros (n & i & x & Hn & ->). exists n, i, x. split; [lia | done].
Qed.

(** What the call of [extract_images] for page [n] does to the state. *)
Lemma extract_images_trace page pdf_name n images_dir st :
  exists r evs,
    extract_images page pdf_name n images_dir st = (r, extend st evs)
    /\ Forall (image_event_in (images_dir / pdf_name)%path n (S n)) evs
    /\ NoDup (writes evs).
Proof.
  destruct (get_images page) as [[|info l]|e] eqn:Hl.
  - exists (Ok []), []. rewrite extend_nil, (extract_images_none _ _ _ _ _ Hl).
    split; [done|]. split; constructor.
  - destruct (is_file (fs st) (images_dir / pdf_name)%path) eqn:Hf.
    + destruct (extract_images_mkdir_fails _ pdf_name n _ _ _ _ Hl Hf) as [e He].
      exists (Raise e), []. rewrite extend_nil. split; [done|]. split; constructor.
    + eexists _, _. split; [by apply extract_images_run|]. split.
      * constructor; [done | apply slot_events_in].
      * apply slot_events_NoDup, NoDup_enumerate.
  - exists (Raise e), []. rewrite extend_nil, (extract_images_listing_fails _ _ _ _ _ _ Hl).
    split; [done|]. split; constructor.
Qed.

Lemma convert_page_trace doc pdf_name images_dir n mc st :
  exists r evs,
    convert_page doc pdf_name images_dir n mc st = (r, extend st evs)
    /\ Forall (image_event_in (images_dir / pdf_name)%path n (S n)) evs
    /\ NoDup (writes evs).
Proof.
  unfold convert_page, bind, call.
  destruct (load_page doc n) as [page|e].
  2:{ exists (Raise e), []. rewrite extend_nil. split; [done|]. split; constructor. }
  destruct (get_text page) as [text|e].
  2:{ exists (Raise e), []. rewrite extend_nil. split; [done|]. split; constructor. }
  destruct (extract_images_trace page pdf_name n images_dir st) as (r & evs & Hr & Hev & Hnd).
  rewrite Hr. destruct r as [refs|e]; eexists _, evs; (split; [reflexivity | done]).
Qed.

Lemma image_events_writes dir lo hi evs p :
  Forall (image_event_in dir lo hi) evs -> p ∈ writes evs ->
  exists n i x, lo <= n < hi /\ p = (dir / image_filename n i x)%path.
Proof.
  intros Hall Hin. apply writes_elem in Hin as [d Hin].
  rewrite Forall_forall in Hall. exact (Hall _ Hin).
Qed.

Lemma convert_pages_trace doc pdf_name images_dir m k mc st :
  exists r evs,
    for_in (seq k m) (convert_page doc pdf_name images_dir) mc st = (r, extend st evs)
    /\ Forall (image_event_in (images_dir / pdf_name)%path k (k + m)) evs
    /\ NoDup (writes evs).
Proof.
  revert k mc st. induction m as [|m IH]; intros k mc st.
  - exists (Ok mc), []. rewrite extend_nil. split; [done|]. split; constructor.
  - simpl. unfold bind.
    destruct (convert_page_trace doc pdf_name images_dir k mc st)
      as (r1 & evs1 & Hr1 & Hev1 & Hnd1).
    rewrite Hr1. destruct r1 as [mc1|e].
    + destruct (IH (S k) mc1 (extend st evs1)) as (r2 & evs2 & Hr2 & Hev2 & Hnd2).
      exists r2, (evs1 ++ evs2). rewrite Hr2, extend_extend. split; [done|]. split.
      * apply Forall_app. split.
        -- eapply Forall_impl; [exact Hev1|]. intros ev. apply image_event_in_mono; lia.
        -- eapply Forall_impl; [exact Hev2|]. intros ev. apply image_event_in_mono; lia.
      * rewrite writes_app. apply NoDup_app. split; [done|]. split; [|done].
        intros p Hp1 Hp2.
        apply (image_events_writes _ _ _ _ _ Hev1) in Hp1 as (n1 & i1 & x1 & Hn1 & ->).
        apply (image_events_writes _ _ _ _ _ Hev2) in Hp2 as (n2 & i2 & x2 & Hn2 & E).
        apply image_path_inj in E as (-> & _). lia.
    + exists (Raise e), evs1. split; [done|]. split; [|done].
      eapply Forall_impl; [exact Hev1|]. intros ev. apply image_event_in_mono; lia.
Qed.

(** C7.  The files written while the pages of one document are processed
    are all image files of its directory, named after a page of the
    document and a position in the listing of that page, and they are
    pairwise distinct; two such names are equal only for the same page,
    the same position and the same extension. *)
Theorem image_files_distinct doc pdf_name images_dir mc st :
  (exists r evs,
     convert_pages doc pdf_name images_dir mc st = (r, extend st evs)
     /\ NoDup (writes evs)
     /\ forall p, p ∈ writes evs ->
          exists n i x, n < len doc
                        /\ p = (images_dir / pdf_name / image_filename n i x)%path)
  /\ (forall n i x n' i' x',
        image_filename n i x = image_filename n' i' x' -> n = n' /\ i = i' /\ x = x').
Proof.
  split; [|apply image_filename_inj].
  destruct (convert_pages_trace doc pdf_name images_dir (len doc) 0 mc st)
    as (r & evs & Hr & Hev & Hnd).
  exists r, evs. split; [exact Hr|]. split; [done|].
  intros p Hp. apply (image_events_writes _ _ _ _ _ Hev) in Hp as (n & i & x & Hn & ->).
  exists n, i, x. split; [lia | done].
Qed.

(** ** One document *)

Lemma convert_trace env pdf_path output_dir images_dir st :
  let dir := (images_dir / stem pdf_path)%path in
  let output_path := (output_dir / output_name (stem pdf_path))%path in
  exists r evs tail,
    convert_pdf_to_markdown env pdf_path output_dir images_dir st
      = (r, extend st (Print ("Converting: " +:+ name pdf_path) :: evs ++ tail))
    /\ (forall doc, fitz_open env pdf_path = Ok doc ->
          Forall (image_event_in dir 0 (len doc)) evs)
    /\ (forall e, fitz_open env pdf_path = Raise e -> evs = [])
    /\ NoDup (writes evs)
    /\ ((exists e, r = Raise e /\ tail = [])
        \/ (r = Ok tt /\ exists content,
              tail = [Write output_path (Utf8 content);
                      Print ("  -> Created: " +:+ output_name (stem pdf_path))])).
Proof.
  intros dir output_path. unfold convert_pdf_to_markdown, bind.
  rewrite print_run. unfold call at 1.
  destruct (fitz_open env pdf_path) as [doc|e] eqn:Hopen.
  2:{ exists (Raise e), [], []. split; [done|]. split; [done|]. split; [done|].
      split; [constructor | left; eauto]. }
  destruct (convert_pages_trace doc (stem pdf_path) images_dir (len doc) 0
              (header pdf_path) (extend st [Print ("Converting: " +:+ name pdf_path)]))
    as (r & evs & Hr & Hev & Hnd).
  rewrite Hr, extend_extend. destruct r as [mc|e].
  - destruct (is_dir (fs (extend st ([Print ("Converting: " +:+ name pdf_path)] ++ evs)))
                output_path) eqn:Hd.
    + rewrite (write_file_fail _ _ _ Hd).
      eexists (Raise _), evs, []. rewrite app_nil_r.
      split; [done|]. split; [by intros ? [= <-]|]. split; [done|].
      split; [done | left; eauto].
    + rewrite (write_file_ok _ _ _ Hd), print_run, !extend_extend.
      eexists (Ok tt), evs, _. split; [by rewrite <- app_assoc|].
      split; [by intros ? [= <-]|]. split; [done|]. split; [done | right; eauto].
  - exists (Raise e), evs, []. rewrite app_nil_r.
    split; [done|]. split; [by intros ? [= <-]|]. split; [done|].
    split; [done | left; eauto].
Qed.

Lemma path_join_length (p : list string) c : length (p / c)%path = S (length p).
Proof. unfold path_join. rewrite length_app. simpl. lia. Qed.

Lemma path_depth_ne (p q : list string) : length p <> length q -> p <> q.
Proof. by intros H ->. Qed.

(** C9.  When [main] calls it (images under [output_dir / "images"]), a
    conversion that raises has not touched the Markdown file of the
    document: the path holds what it held before.  Nothing is undone
    either: every file written before the exception, that is every image
    extracted, is on disk in the state at which the exception leaves. *)
Theorem failed_conversion_leaves_markdown env pdf_path output_dir st e st' :
  let images_dir := (output_dir / "images")%path in
  let output_path := (output_dir / output_name (stem pdf_path))%path in
  convert_pdf_to_markdown env pdf_path output_dir images_dir st = (Raise e, st') ->
  fs st' !! output_path = (fs st !! output_path)
  /\ exists evs,
       st' = extend st evs
       /\ (output_path ∉ touches evs)
       /\ forall q d, Write q d ∈ evs -> fs st' !! q = Some (File d).
Proof.
  intros images_dir output_path Hrun.
  destruct (convert_trace env pdf_path output_dir images_dir st)
    as (r & evs & tail & Hr & Hev & Hnone & Hnd & Htail).
  rewrite Hrun in Hr. injection Hr as <- ->.
  destruct Htail as [(e' & _ & ->)|[[=] _]]. rewrite app_nil_r.
  set (dir := (images_dir / stem pdf_path)%path) in *.
  assert (Hshape : forall ev, ev ∈ evs ->
            match ev with
            | Print _ => True
            | Mkdir p => p = dir
            | Write p _ => exists f, p = (dir / f)%path
            end).
  { destruct (fitz_open env pdf_path) as [doc|e0] eqn:Hopen.
    - specialize (Hev doc eq_refl). rewrite Forall_forall in Hev.
      intros ev Hin. specialize (Hev ev Hin). destruct ev as [s|p|p d]; try done.
      destruct Hev as (n & i & x & _ & ->). eauto.
    - rewrite (Hnone e0 eq_refl). intros ev Hin. inversion Hin. }
  assert (Huntouched : output_path ∉ touches (Print ("Converting: " +:+ name pdf_path) :: evs)).
  { rewrite touches_elem. intros [Hm|Hw].
    - apply elem_of_cons in Hm as [[=]|Hm]. apply Hshape in Hm.
      revert Hm. apply path_depth_ne. unfold output_path, dir, images_dir.
      rewrite !path_join_length. lia.
    - apply writes_elem in Hw as [d Hw].
      apply elem_of_cons in Hw as [[=]|Hw]. apply Hshape in Hw as [f Hf].
      revert Hf. apply path_depth_ne. unfold output_path, dir, images_dir.
      rewrite !path_join_length. lia. }
  split.
  - rewrite fs_extend. by apply replay_untouched.
  - eexists. split; [reflexivity|]. split; [done|].
    intros q d Hin. rewrite fs_extend. apply replay_writes_persist; [done| |done].
    intros p Hm Hw. apply elem_of_cons in Hm as [[=]|Hm]. apply Hshape in Hm as ->.
    apply writes_elem in Hw as [d' Hw].
    apply elem_of_cons in Hw as [[=]|Hw]. apply Hshape in Hw as [f Hf].
    symmetry in Hf. by apply path_join_ne_self in Hf.
Qed.

Lemma failed_conversion_leaves_markdown_witness :
  exists st',
    convert_pdf_to_markdown broken_env nota_pdf ["out"] (["out"] / "images")%path empty_state
      = (Raise (Exception "cannot read page"), st')
    /\ fs st' !! ["out"; "nota.md"] = None
    /\ fs st' !! ["out"; "images"; "nota"; "page1_img2.png"]
       = Some (File (Bytes [Byte.x89; Byte.x50; Byte.x4e; Byte.x47])).
Proof.
  eexists. split; [vm_compute; reflexivity|].
  split.
  - apply (proj1 (failed_conversion_leaves_markdown broken_env nota_pdf ["out"] empty_state
                    (Exception "cannot read page") _ eq_refl)).
  - vm_compute. reflexivity.
Defined.

(** ** The batch *)

Lemma convert_all_cons env output_dir images_dir p rest st :
  convert_all env output_dir images_dir (p :: rest) st =
    match convert_pdf_to_markdown env p output_dir images_dir st with
    | (Ok _, st') => convert_all env output_dir images_dir rest st'
    | (Raise e, st') =>
        convert_all env output_dir images_dir rest (extend st' [Print (convert_error p e)])
    end.
Proof.
  unfold convert_all. simpl. unfold bind, try_except.
  destruct (convert_pdf_to_markdown env p output_dir images_dir st) as [[[]|e] st']; done.
Qed.

Lemma convert_all_returns env output_dir images_dir files st :
  exists st', convert_all env output_dir images_dir files st = (Ok tt, st').
Proof.
  revert st. induction files as [|p rest IH]; intros st.
  - by exists st.
  - rewrite convert_all_cons.
    destruct (convert_pdf_to_markdown env p output_dir images_dir st) as [[[]|e] st'];
      apply IH.
Qed.

Lemma convert_all_app env output_dir images_dir pre post st st_p :
  convert_all env output_dir images_dir pre st = (Ok tt, st_p) ->
  convert_all env output_dir images_dir (pre ++ post) st
    = convert_all env output_dir images_dir post st_p.
Proof.
  intros H. unfold convert_all in *. rewrite for_in_app, H. done.
Qed.

Lemma main_run env script_dir st :
  let pdf_dir := (script_dir / "docs" / "nfse-nacional")%path in
  let output_dir := (script_dir / "docs" / "markdown")%path in
  let images_dir := (output_dir / "images")%path in
  let pdf_files := sorted (glob_pdf env pdf_dir) in
  is_file (fs st) output_dir = false ->
  is_file (fs st) images_dir = false ->
  exists st',
    main env script_dir st = (Ok tt, st')
    /\ (pdf_files = [] ->
          st' = extend st [Mkdir output_dir; Mkdir images_dir;
                           Print ("No PDF files found in " +:+ path_str pdf_dir)])
    /\ (pdf_files <> [] ->
          exists st1,
            convert_all env output_dir images_dir pdf_files
              (extend st [Mkdir output_dir; Mkdir images_dir;
                          Print ("Found " +:+ str (length pdf_files)
                                 +:+ " PDF files to convert" +:+ nl)])
              = (Ok tt, st1)
            /\ st' = extend st1 [Print (nl +:+ "Conversion complete!");
                                 Print ("Markdown files saved to: " +:+ path_str output_dir);
                                 Print ("Images saved to: " +:+ path_str images_dir)]).
Proof.
  intros pdf_dir output_dir images_dir pdf_files HO HI.
  unfold main. fold pdf_dir output_dir images_dir pdf_files. unfold bind at 1.
  rewrite (mkdir_ok _ _ HO). unfold bind at 1.
  rewrite mkdir_ok.
  2:{ rewrite fs_extend. simpl. rewrite is_file_insert_ne; [done|].
      intros E. symmetry in E. by apply path_join_ne_self in E. }
  rewrite extend_extend.
  destruct pdf_files as [|p rest] eqn:Ef.
  - rewrite print_run, extend_extend. eexists. split; [reflexivity|]. split; done.
  - unfold bind. rewrite print_run, extend_extend.
    destruct (convert_all_returns env output_dir images_dir (p :: rest)
                (extend st ([Mkdir output_dir] ++ [Mkdir images_dir]
                   ++ [Print ("Found " +:+ str (length (p :: rest))
                              +:+ " PDF files to convert" +:+ nl)])))
      as [st1 H1].
    simpl app in H1. simpl app. rewrite H1. rewrite !print_run, !extend_extend.
    eexists. split; [reflexivity|]. split; [done|]. intros _.
    exists st1. split; [exact H1 | done].
Qed.

(** C4.  The loop of [main] over the PDF files always runs to its end and
    returns normally.  It reaches every file [p] of the batch after
    finishing the files before it; if the conversion of [p] raises an
    exception of message [msg] there, the line
    [  Error converting <name of p>: <msg>] is printed and the loop goes on
    with the files after [p] from that state, exactly as it goes on after
    a conversion that succeeded.  So [main], started where the directory
    [docs] exists and no regular file stands in the place of its output
    or image directory, makes these two directories, prints the count of
    the files, runs the loop from there and, whatever the conversions do,
    prints its three closing lines and returns normally (exit status of
    success). *)
Theorem batch_isolates_failures env :
  (forall output_dir images_dir pre p post st,
     exists st_p r st_q st_end,
       convert_all env output_dir images_dir pre st = (Ok tt, st_p)
       /\ convert_pdf_to_markdown env p output_dir images_dir st_p = (r, st_q)
       /\ convert_all env output_dir images_dir (pre ++ p :: post) st = (Ok tt, st_end)
       /\ match r with
          | Ok _ => convert_all env output_dir images_dir post st_q = (Ok tt, st_end)
          | Raise (Exception msg) =>
              convert_all env output_dir images_dir post
                (extend st_q [Print ("  Error converting " +:+ name p +:+ ": " +:+ msg)])
              = (Ok tt, st_end)
          end)
  /\ (forall script_dir st,
        let output_dir := (script_dir / "docs" / "markdown")%path in
        let images_dir := (output_dir / "images")%path in
        let pdf_files := sorted (glob_pdf env (script_dir / "docs" / "nfse-nacional")%path) in
        is_dir (fs st) (script_dir / "docs")%path = true ->
        is_file (fs st) output_dir = false ->
        is_file (fs st) images_dir = false ->
        exists st',
          main env script_dir st = (Ok tt, st')
          /\ (pdf_files <> [] ->
              exists st1,
                convert_all env output_dir images_dir pdf_files
                  (extend st [Mkdir output_dir; Mkdir images_dir;
                              Print ("Found " +:+ str (length pdf_files)
                                     +:+ " PDF files to convert" +:+ nl)])
                  = (Ok tt, st1)
                /\ st' = extend st1
                           [Print (nl +:+ "Conversion complete!");
                            Print ("Markdown files saved to: " +:+ path_str output_dir);
                            Print ("Images saved to: " +:+ path_str images_dir)])).
Proof.
  split.
  - intros output_dir images_dir pre p post st.
    destruct (convert_all_returns env output_dir images_dir pre st) as [st_p Hpre].
    destruct (convert_pdf_to_markdown env p output_dir images_dir st_p) as [r st_q] eqn:Hp.
    destruct (convert_all_returns env output_dir images_dir (pre ++ p :: post) st)
      as [st_end Hall].
    exists st_p, r, st_q, st_end. split; [done|]. split; [done|]. split; [done|].
    rewrite (convert_all_app _ _ _ _ _ _ _ Hpre), convert_all_cons, Hp in Hall.
    by destruct r as [[]|[msg]].
  - intros script_dir st output_dir images_dir pdf_files _ HO HI.
    destruct (main_run env script_dir st HO HI) as (st' & Hrun & _ & Hfiles).
    exists st'. split; [exact Hrun|]. intros Hne.
    destruct (Hfiles Hne) as (st1 & H1 & ->). exists st1. split; [exact H1 | done].
Qed.

Lemma batch_isolates_failures_witness :
  is_dir (fs docs_state) ([] / "docs")%path = true /\
  is_file (fs docs_state) ([] / "docs" / "markdown")%path = false /\
  is_file (fs docs_state) ([] / "docs" / "markdown" / "images")%path = false /\
  exists st',
    main two_files_env [] docs_state = (Ok tt, st')
    /\ Print "  Error converting b.pdf: no such file" ∈ log st'.
Proof.
  split; [reflexivity|]. split; [reflexivity|]. split; [reflexivity|].
  destruct (batch_isolates_failures two_files_env) as [Hloop Hmain].
  destruct (Hmain [] docs_state eq_refl eq_refl eq_refl) as (st' & Hrun & Hfiles).
  exists st'. split; [exact Hrun|].
  destruct Hfiles as (st1 & H1 & ->); [done|].
  rewrite log_extend. apply elem_of_app. left.
  match type of H1 with convert_all _ ?O ?I _ ?s = _ =>
    destruct (Hloop O I [ {| name := "a.pdf"; stem := "a" |} ]
                {| name := "b.pdf"; stem := "b" |} [] s)
      as (st_p & r & st_q & st_end & _ & Hq & Hall & Hr)
  end.
  assert (E : (Ok tt, st_end) = (Ok tt, st1)) by (rewrite <- Hall; exact H1).
  injection E as <-.
  unfold convert_pdf_to_markdown, bind in Hq. rewrite print_run in Hq.
  injection Hq as <- <-.
  injection Hr as <-.
  rewrite log_extend. apply elem_of_app. right. left.
Defined.

(** ** Running the batch a second time *)

Lemma apply_event_union f ev : apply_event f ev = apply_event ∅ ev ∪ f.
Proof.
  destruct ev as [s|p|p d]; simpl.
  - by rewrite (left_id_L ∅ (∪)).
  - by rewrite insert_empty, insert_union_singleton_l.
  - by rewrite insert_empty, insert_union_singleton_l.
Qed.

Lemma replay_union evs f : replay evs f = replay evs ∅ ∪ f.
Proof.
  revert f. induction evs as [|ev evs IH]; intros f.
  - simpl. by rewrite (left_id_L ∅ (∪)).
  - rewrite !replay_cons, (IH (apply_event f ev)), (IH (apply_event ∅ ev)).
    by rewrite (apply_event_union f ev), (assoc_L (∪)).
Qed.

(** Replaying the events of a run on its own result changes nothing. *)
Lemma replay_twice evs f : replay evs (replay evs f) = replay evs f.
Proof.
  rewrite (replay_union evs (replay evs f)), (replay_union evs f).
  by rewrite (assoc_L (∪)), (idemp_L (∪)).
Qed.

Lemma same_kinds_refl O f : same_kinds O f f.
Proof. by split. Qed.

Lemma same_kinds_sym O f g : same_kinds O f g -> same_kinds O g f.
Proof. intros [H1 H2]. split; intros p Hp; symmetry; auto. Qed.

Lemma same_kinds_trans O f g h : same_kinds O f g -> same_kinds O g h -> same_kinds O f h.
Proof.
  intros [H1 H2] [H3 H4]. split; intros p Hp.
  - by rewrite H1, H3.
  - by rewrite H2, H4.
Qed.

Lemma images_not_markdown s : output_name s <> "images".
Proof.
  unfold output_name. intros E.
  assert (Hlen : String.length s = 3).
  { apply (f_equal String.length) in E. rewrite string_length_app in E. simpl in E. lia. }
  destruct s as [|a [|b [|c [|d s]]]]; simpl in Hlen; try lia.
  discriminate E.
Qed.

(** No path is both a directory and a file of the run. *)
Lemma targets_disjoint O p : mkdir_target O p -> write_target O p -> False.
Proof.
  intros [->|[->|[s ->]]] [[t E]|(t & f & E)].
  - symmetry in E. by apply path_join_ne_self in E.
  - revert E. apply path_depth_ne. rewrite !path_join_length. lia.
  - apply path_join_inj in E as [_ E]. symmetry in E. by apply images_not_markdown in E.
  - revert E. apply path_depth_ne. rewrite !path_join_length. lia.
  - revert E. apply path_depth_ne. rewrite !path_join_length. lia.
  - revert E. apply path_depth_ne. rewrite !path_join_length. lia.
Qed.

Lemma stable_quiet {A} O (c : M A) r :
  (forall st, c st = (r, st)) -> stable O c.
Proof.
  intros Hc st1 st2 Hs. exists r, []. rewrite !extend_nil, !Hc.
  split; [done|]. split; [done|]. split; apply same_kinds_refl.
Qed.

Lemma stable_ret {A} O (a : A) : stable O (ret a).
Proof. by apply (stable_quiet O _ (Ok a)). Qed.

Lemma stable_raise {A} O e : stable O (@raise A e).
Proof. by apply (stable_quiet O _ (Raise e)). Qed.

Lemma stable_call {A} O (r : result A) : stable O (call r).
Proof. by apply (stable_quiet O _ r). Qed.

Lemma stable_getitem {A} O key (v : option A) : stable O (getitem key v).
Proof. destruct v; [apply stable_ret | apply stable_raise]. Qed.

Lemma stable_print O s : stable O (print s).
Proof.
  intros st1 st2 Hs. exists (Ok tt), [Print s]. rewrite !print_run.
  split; [done|]. split; [done|]. split; apply same_kinds_refl.
Qed.

Lemma same_kinds_mkdir O f p :
  mkdir_target O p -> is_file f p = false -> same_kinds O f (<[p := Dir]> f).
Proof.
  intros Hp Hf. split; intros q Hq.
  - destruct (decide (p = q)) as [<-|Hne].
    + by rewrite is_file_insert_dir.
    + by rewrite is_file_insert_ne.
  - rewrite is_dir_insert_ne; [done|]. intros <-. by apply (targets_disjoint O p).
Qed.

Lemma same_kinds_write O f p d :
  write_target O p -> is_dir f p = false -> same_kinds O f (<[p := File d]> f).
Proof.
  intros Hp Hf. split; intros q Hq.
  - rewrite is_file_insert_ne; [done|]. intros <-. by apply (targets_disjoint O p).
  - destruct (decide (p = q)) as [<-|Hne].
    + by rewrite is_dir_insert_file.
    + by rewrite is_dir_insert_ne.
Qed.

Lemma stable_mkdir O p : mkdir_target O p -> stable O (mkdir p).
Proof.
  intros Hp st1 st2 Hs. pose proof (proj1 Hs p Hp) as Hk.
  destruct (is_file (fs st1) p) eqn:H1; symmetry in Hk.
  - exists (Raise (Exception ("[Errno 17] File exists: '" +:+ path_str p +:+ "'"))), [].
    rewrite !extend_nil. unfold mkdir, is_file in *.
    destruct (fs st1 !! p) as [[|d1]|]; try discriminate.
    destruct (fs st2 !! p) as [[|d2]|]; try discriminate.
    split; [done|]. split; [done|]. split; apply same_kinds_refl.
  - exists (Ok tt), [Mkdir p]. rewrite !mkdir_ok by done.
    split; [done|]. split; [done|]. split; by apply same_kinds_mkdir.
Qed.

Lemma stable_write_file O p d : write_target O p -> stable O (write_file p d).
Proof.
  intros Hp st1 st2 Hs. pose proof (proj2 Hs p Hp) as Hk.
  destruct (is_dir (fs st1) p) eqn:H1; symmetry in Hk.
  - eexists (Raise _), []. rewrite !extend_nil, !write_file_fail by done.
    split; [done|]. split; [done|]. split; apply same_kinds_refl.
  - exists (Ok tt), [Write p d]. rewrite !write_file_ok by done.
    split; [done|]. split; [done|]. split; by apply same_kinds_write.
Qed.

Lemma stable_bind {A B} O (m : M A) (k : A -> M B) :
  stable O m -> (forall a, stable O (k a)) -> stable O (bind m k).
Proof.
  intros Hm Hk st1 st2 Hs.
  destruct (Hm st1 st2 Hs) as (r & evs & E1 & E2 & K1 & K2).
  unfold bind. rewrite E1, E2. destruct r as [a|e].
  - assert (Hs' : same_kinds O (fs (extend st1 evs)) (fs (extend st2 evs))).
    { rewrite !fs_extend. eapply same_kinds_trans; [apply same_kinds_sym, K1|].
      eapply same_kinds_trans; [exact Hs | exact K2]. }
    destruct (Hk a _ _ Hs') as (r' & evs' & E1' & E2' & K1' & K2').
    exists r', (evs ++ evs'). rewrite E1', E2', !extend_extend, !replay_app.
    split; [done|]. split; [done|]. split.
    + eapply same_kinds_trans; [exact K1 | exact K1'].
    + eapply same_kinds_trans; [exact K2 | exact K2'].
  - exists (Raise e), evs. done.
Qed.

Lemma stable_try_except {A} O (body : M A) (handler : exn -> M A) :
  stable O body -> (forall e, stable O (handler e)) -> stable O (try_except body handler).
Proof.
  intros Hm Hk st1 st2 Hs.
  destruct (Hm st1 st2 Hs) as (r & evs & E1 & E2 & K1 & K2).
  unfold try_except. rewrite E1, E2. destruct r as [a|e].
  - exists (Ok a), evs. done.
  - assert (Hs' : same_kinds O (fs (extend st1 evs)) (fs (extend st2 evs))).
    { rewrite !fs_extend. eapply same_kinds_trans; [apply same_kinds_sym, K1|].
      eapply same_kinds_trans; [exact Hs | exact K2]. }
    destruct (Hk e _ _ Hs') as (r' & evs' & E1' & E2' & K1' & K2').
    exists r', (evs ++ evs'). rewrite E1', E2', !extend_extend, !replay_app.
    split; [done|]. split; [done|]. split.
    + eapply same_kinds_trans; [exact K1 | exact K1'].
    + eapply same_kinds_trans; [exact K2 | exact K2'].
Qed.

Lemma stable_for_in {A S} O (l : list A) (body : A -> S -> M S) s :
  (forall x s', stable O (body x s')) -> stable O (for_in l body s).
Proof.
  intros Hb. revert s. induction l as [|x l IH]; intros s; simpl.
  - apply stable_ret.
  - apply stable_bind; [apply Hb | intros s'; apply IH].
Qed.

Lemma stable_extract_images O page pdf_name n :
  stable O (extract_images page pdf_name n (O / "images")%path).
Proof.
  unfold extract_images. apply stable_bind; [apply stable_call|].
  intros [|info l]; [apply stable_ret|].
  apply stable_bind.
  { apply stable_mkdir. right. right. by exists pdf_name. }
  intros _. apply stable_for_in. intros [i inf] refs. unfold extract_step.
  apply stable_try_except.
  - unfold extract_one. apply stable_bind; [apply stable_call|]. intros bi.
    apply stable_bind; [apply stable_getitem|]. intros b.
    apply stable_bind; [apply stable_getitem|]. intros x.
    apply stable_bind; [|intros _; apply stable_ret].
    apply stable_write_file. right. by exists pdf_name, (image_filename n i x).
  - intros e. apply stable_bind; [apply stable_print | intros _; apply stable_ret].
Qed.

Lemma stable_convert O env pdf_path :
  stable O (convert_pdf_to_markdown env pdf_path O (O / "images")%path).
Proof.
  unfold convert_pdf_to_markdown.
  apply stable_bind; [apply stable_print|]. intros _.
  apply stable_bind; [apply stable_call|]. intros doc.
  apply stable_bind.
  { apply stable_for_in. intros n mc. unfold convert_page.
    apply stable_bind; [apply stable_call|]. intros page.
    apply stable_bind; [apply stable_call|]. intros text.
    apply stable_bind; [apply stable_extract_images | intros refs; apply stable_ret]. }
  intros mc. apply stable_bind; [|intros _; apply stable_print].
  apply stable_write_file. left. by exists (stem pdf_path).
Qed.

Lemma stable_main env script_dir :
  stable (script_dir / "docs" / "markdown")%path (main env script_dir).
Proof.
  unfold main.
  apply stable_bind; [apply stable_mkdir; by left|]. intros _.
  apply stable_bind; [apply stable_mkdir; right; by left|]. intros _.
  destruct (sorted (glob_pdf env (script_dir / "docs" / "nfse-nacional")%path)) as [|p rest].
  - apply stable_print.
  - apply stable_bind; [apply stable_print|]. intros _.
    apply stable_bind.
    { unfold convert_all. apply stable_for_in. intros q [].
      apply stable_try_except; [apply stable_convert | intros e; apply stable_print]. }
    intros _. apply stable_bind; [apply stable_print|]. intros _.
    apply stable_bind; [apply stable_print|]. intros _. apply stable_print.
Qed.

(** C6.  Running [main] again on the state left by a first run, with the
    same input directory and the same answers of the PDF library, gives
    the same result and leaves the file system exactly as the first run
    left it: every Markdown file (and every other file) holds the same
    content, written over itself. *)
Theorem main_twice env script_dir st :
  let st1 := snd (main env script_dir st) in
  let st2 := snd (main env script_dir st1) in
  fs st2 = fs st1
  /\ fst (main env script_dir st1) = fst (main env script_dir st)
  /\ forall pdf_path,
       fs st2 !! (script_dir / "docs" / "markdown" / output_name (stem pdf_path))%path
       = (fs st1 !! (script_dir / "docs" / "markdown" / output_name (stem pdf_path))%path).
Proof.
  intros st1 st2.
  destruct (stable_main env script_dir st st (same_kinds_refl _ _))
    as (r & evs & E & _ & K & _).
  assert (Hst1 : st1 = extend st evs) by (unfold st1; by rewrite E).
  assert (Hs : same_kinds (script_dir / "docs" / "markdown")%path (fs st1) (fs st)).
  { rewrite Hst1, fs_extend. by apply same_kinds_sym. }
  destruct (stable_main env script_dir st1 st Hs) as (r' & evs' & E1 & E2 & _).
  rewrite E in E2. injection E2 as -> _ Hevs.
  apply app_inv_head in Hevs as ->.
  assert (Hfs : fs st2 = fs st1).
  { unfold st2. rewrite E1, Hst1. simpl. apply replay_twice. }
  split; [done|]. split; [by rewrite E1, E|].
  intros pdf_path. by rewrite Hfs.
Qed.

(** ** The page headings of the Markdown file *)

Lemma filter_flat_map {A B} (P : B -> Prop) `{forall x, Decision (P x)}
    (f : A -> list B) (l : list A) :
  filter P (flat_map f l) = flat_map (fun x => filter P (f x)) l.
Proof.
  induction l as [|x l IH]; [done|]. simpl. by rewrite filter_app, IH.
Qed.

Lemma page_headings_join l :
  l <> [] -> page_headings_of (join nl l) = flat_map page_headings_of l.
Proof.
  intros Hl. unfold page_headings_of. rewrite split_join by done.
  apply filter_flat_map.
Qed.

Lemma page_headings_app a b :
  page_headings_of (a +:+ nl +:+ b) = page_headings_of a ++ page_headings_of b.
Proof. unfold page_headings_of. by rewrite split_app, filter_app. Qed.

Lemma page_headings_other s :
  no_lf s = true -> String.prefix "## Page" s = false -> page_headings_of s = [].
Proof.
  intros Hs Hp. unfold page_headings_of. rewrite split_no_lf by done.
  rewrite filter_cons, decide_False; [done|]. rewrite Hp. intros [].
Qed.

Lemma page_headings_heading s :
  no_lf s = true -> String.prefix "## Page" s = true -> page_headings_of s = [s].
Proof.
  intros Hs Hp. unfold page_headings_of. rewrite split_no_lf by done.
  rewrite filter_cons, decide_True; [done|]. rewrite Hp. exact I.
Qed.

Lemma all_chars_impl (P Q : ascii -> bool) s :
  (forall c, P c = true -> Q c = true) -> all_chars P s = true -> all_chars Q s = true.
Proof.
  intros HPQ. induction s as [|c s IH]; [done|]. simpl.
  intros H. apply andb_true_iff in H as [Hc Hs]. by rewrite (HPQ c Hc), IH.
Qed.

Lemma no_lf_app a b : no_lf (a +:+ b) = no_lf a && no_lf b.
Proof. apply all_chars_app. Qed.

Lemma no_lf_str n : no_lf (str n) = true.
Proof.
  apply (all_chars_impl is_digit); [|apply str_digits].
  intros c Hc. destruct (Ascii.eqb c LF) eqn:E; [|done].
  apply Ascii.eqb_eq in E as ->. discriminate Hc.
Qed.

Lemma page_headings_empty : page_headings_of "" = [].
Proof. reflexivity. Qed.

Lemma page_headings_page_heading n : page_headings_of (page_heading n) = [heading_line (n + 1)].
Proof.
  unfold page_heading.
  change (nl +:+ "## Page " +:+ str (n + 1) +:+ nl)
    with ("" +:+ nl +:+ ("## Page " +:+ str (n + 1) +:+ nl)).
  rewrite page_headings_app.
  replace ("## Page " +:+ str (n + 1) +:+ nl)
    with (heading_line (n + 1) +:+ nl +:+ "")
    by (unfold heading_line; by rewrite string_app_assoc, string_app_nil_r).
  rewrite page_headings_app, (page_headings_heading (heading_line (n + 1)));
    [by rewrite !page_headings_empty| |done].
  unfold heading_line. rewrite no_lf_app, no_lf_str. done.
Qed.

Lemma page_headings_images_heading n : page_headings_of (images_heading n) = [].
Proof.
  unfold images_heading.
  change (nl +:+ "### Images from Page " +:+ str (n + 1) +:+ nl)
    with ("" +:+ nl +:+ ("### Images from Page " +:+ str (n + 1) +:+ nl)).
  rewrite page_headings_app.
  replace ("### Images from Page " +:+ str (n + 1) +:+ nl)
    with (("### Images from Page " +:+ str (n + 1)) +:+ nl +:+ "")
    by (by rewrite string_app_assoc, string_app_nil_r).
  rewrite page_headings_app,
    (page_headings_other ("### Images from Page " +:+ str (n + 1)));
    [by rewrite !page_headings_empty| |done].
  rewrite no_lf_app, no_lf_str. done.
Qed.

Lemma page_headings_refs refs :
  Forall (fun r => page_headings_of r = []) refs ->
  page_headings_of (join (nl +:+ nl) refs) = [].
Proof.
  induction 1 as [|r refs Hr Hrefs IH]; [done|].
  destruct refs as [|r' refs]; [done|].
  rewrite join_cons.
  change (r +:+ (nl +:+ nl) +:+ join (nl +:+ nl) (r' :: refs))
    with (r +:+ nl +:+ ("" +:+ nl +:+ join (nl +:+ nl) (r' :: refs))).
  by rewrite !page_headings_app, Hr, IH, page_headings_empty.
Qed.

Lemma to_upper_not_lf c : Ascii.eqb c LF = false -> Ascii.eqb (to_upper c) LF = false.
Proof.
  intros Hc. unfold to_upper. destruct (is_lower c) eqn:El; [|done].
  apply Ascii.eqb_neq. intros E. apply (f_equal nat_of_ascii) in E.
  unfold is_lower in El. apply andb_true_iff in El as [H1 H2].
  apply Nat.leb_le in H1, H2.
  rewrite nat_ascii_embedding in E by lia. change (nat_of_ascii LF) with 10 in E. lia.
Qed.

Lemma to_lower_not_lf c : Ascii.eqb c LF = false -> Ascii.eqb (to_lower c) LF = false.
Proof.
  intros Hc. unfold to_lower. destruct (is_upper c) eqn:El; [|done].
  apply Ascii.eqb_neq. intros E. apply (f_equal nat_of_ascii) in E.
  unfold is_upper in El. apply andb_true_iff in El as [H1 H2].
  apply Nat.leb_le in H1, H2.
  rewrite nat_ascii_embedding in E by lia. change (nat_of_ascii LF) with 10 in E. lia.
Qed.

Lemma no_lf_title_go prev s : no_lf s = true -> no_lf (title_go prev s) = true.
Proof.
  revert prev. induction s as [|c s IH]; intros prev; [done|]. unfold no_lf. simpl.
  intros H. apply andb_true_iff in H as [Hc Hs]. apply negb_true_iff in Hc.
  apply andb_true_iff. split; [|by apply IH].
  apply negb_true_iff. destruct prev; [by apply to_lower_not_lf | by apply to_upper_not_lf].
Qed.

Lemma no_lf_replace s : no_lf s = true -> no_lf (replace "-" " " s) = true.
Proof.
  induction s as [|c s IH]; [done|]. unfold no_lf. simpl.
  intros H. apply andb_true_iff in H as [Hc Hs].
  apply andb_true_iff. split; [|by apply IH].
  by destruct (Ascii.eqb c "-").
Qed.

Lemma page_headings_header pdf_path :
  no_lf (stem pdf_path) = true -> no_lf (name pdf_path) = true ->
  flat_map page_headings_of (header pdf_path) = [].
Proof.
  intros Hs Hn. unfold header, title_line. simpl.
  replace ("# " +:+ title (replace "-" " " (stem pdf_path)) +:+ nl)
    with (("# " +:+ title (replace "-" " " (stem pdf_path))) +:+ nl +:+ "")
    by (by rewrite string_app_assoc, string_app_nil_r).
  replace ("*Converted from: " +:+ name pdf_path +:+ "*" +:+ nl)
    with (("*Converted from: " +:+ name pdf_path +:+ "*") +:+ nl +:+ "")
    by (by rewrite !string_app_assoc, string_app_nil_r).
  rewrite !page_headings_app.
  rewrite (page_headings_other ("# " +:+ _)); [|rewrite no_lf_app|done].
  2:{ unfold title. by rewrite no_lf_title_go by (by apply no_lf_replace). }
  rewrite (page_headings_other ("*Converted from: " +:+ _)); [done| |done].
  rewrite !no_lf_app, Hn. done.
Qed.

Lemma fetch_ext page info b x :
  fetch page info = Ok (b, x) ->
  exists bi, parent_extract_image page (xref info) = Ok bi /\ ext bi = Some x.
Proof.
  unfold fetch. destruct (parent_extract_image page (xref info)) as [bi|e]; [|done].
  destruct (image bi) as [b'|]; [|done]. destruct (ext bi) as [x'|] eqn:Ex; [|done].
  intros [= -> ->]. eauto.
Qed.

(** The references that [extract_images] returns name a file of the page
    with an extension that the library detected. *)
Lemma extract_images_refs page pdf_name n images_dir st refs st' :
  extract_images page pdf_name n images_dir st = (Ok refs, st') ->
  Forall (fun r => exists i x bi k,
            r = image_ref pdf_name (image_filename n i x)
            /\ parent_extract_image page k = Ok bi /\ ext bi = Some x) refs.
Proof.
  intros Hrun. destruct (get_images page) as [[|info l]|e] eqn:Hl.
  - rewrite (extract_images_none _ _ _ _ _ Hl) in Hrun. injection Hrun as <- _. constructor.
  - destruct (is_file (fs st) (images_dir / pdf_name)%path) eqn:Hf.
    + destruct (extract_images_mkdir_fails _ pdf_name n _ _ _ _ Hl Hf) as [e He]. congruence.
    + pose proof (extract_images_run _ pdf_name n _ _ _ _ Hl Hf) as Hgo. cbv zeta in Hgo.
      assert (refs = map (ref_of pdf_name n)
                       (extracted page (fs st) (images_dir / pdf_name)%path n
                          (enumerate 1 (info :: l)))) as -> by congruence.
      apply Forall_forall. intros r Hr.
      apply list_elem_of_fmap in Hr as ([[i x] b] & -> & Ht).
      apply extracted_elem in Ht as (info' & _ & Ha).
      unfold attempt in Ha. simpl in Ha.
      destruct (fetch page info') as [[b' x']|e] eqn:Hfetch; [|done].
      destruct (fetch_ext _ _ _ _ Hfetch) as (bi & Hbi & Hx).
      assert (x' = x) as ->.
      { destruct (fs st !! _) as [[|d]|]; congruence. }
      exists i, x, bi, (xref info'). done.
  - rewrite (extract_images_listing_fails _ _ _ _ _ _ Hl) in Hrun. congruence.
Qed.

Lemma page_headings_image_ref pdf_name n i x :
  no_lf pdf_name = true -> no_lf x = true ->
  page_headings_of (image_ref pdf_name (image_filename n i x)) = [].
Proof.
  intros Hs Hx. apply page_headings_other; [|done].
  unfold image_ref, image_filename. rewrite !no_lf_app, !no_lf_str, Hs, Hx. done.
Qed.

Lemma page_headings_image_fragments n refs :
  Forall (fun r => page_headings_of r = []) refs ->
  flat_map page_headings_of (image_fragments n refs) = [].
Proof.
  intros Hrefs. destruct refs as [|r refs]; [done|]. unfold image_fragments.
  cbn [flat_map]. rewrite page_headings_images_heading, page_headings_refs by done.
  done.
Qed.

Lemma page_headings_text_fragments n text :
  blank text = false ->
  (forall l, l ∈ split LF text -> String.prefix "## Page" (strip l) = false) ->
  flat_map page_headings_of (text_fragments n text) = [heading_line (n + 1)].
Proof.
  intros Hb Hlines. rewrite text_fragments_eq, Hb. cbn [flat_map].
  rewrite page_headings_page_heading.
  set (lines := filter (fun l : string => l <> "") (map strip (split LF text))).
  assert (Hblock : page_headings_of (join nl lines) = []).
  { destruct lines as [|l0 lines0] eqn:El; [done|].
    rewrite page_headings_join by done. rewrite <- El. clear El.
    assert (Hall : Forall (fun l => page_headings_of l = []) lines).
    { apply Forall_forall. intros l Hl. unfold lines in Hl.
      apply list_elem_of_filter in Hl as [_ Hl].
      apply list_elem_of_fmap in Hl as (l1 & -> & Hl1).
      apply page_headings_other; [|by apply Hlines].
      apply strip_no_lf. pose proof (split_lines_no_lf text) as Hnolf.
      rewrite Forall_forall in Hnolf. by apply Hnolf. }
    clear -Hall. induction Hall as [|l ls Hl _ IH]; [done|]. simpl. by rewrite Hl. }
  rewrite Hblock. done.
Qed.

Lemma convert_page_headings doc pdf_name images_dir n mc st mc' st' page text :
  load_page doc n = Ok page ->
  get_text page = Ok text ->
  blank text = false ->
  (forall l, l ∈ split LF text -> String.prefix "## Page" (strip l) = false) ->
  (forall k bi x, parent_extract_image page k = Ok bi -> ext bi = Some x -> no_lf x = true) ->
  no_lf pdf_name = true ->
  convert_page doc pdf_name images_dir n mc st = (Ok mc', st') ->
  flat_map page_headings_of mc' = flat_map page_headings_of mc ++ [heading_line (n + 1)].
Proof.
  intros Hp Ht Hb Hlines Hext Hs Hrun.
  destruct (extract_images page pdf_name n images_dir st) as [r st1] eqn:Hr.
  rewrite (convert_page_run _ _ _ _ _ _ _ _ _ _ Hp Ht Hr) in Hrun.
  destruct r as [refs|e]; [|done]. injection Hrun as <- _.
  rewrite !flat_map_app, page_headings_text_fragments by done.
  rewrite page_headings_image_fragments; [by rewrite app_nil_r|].
  eapply Forall_impl; [exact (extract_images_refs _ _ _ _ _ _ _ Hr)|].
  intros r (i & x & bi & k & -> & Hbi & Hx).
  apply page_headings_image_ref; [done|]. by apply (Hext k bi).
Qed.

Lemma convert_pages_headings doc pdf_name images_dir m k mc st mc' st' :
  (forall n, k <= n < k + m ->
     exists page text,
       load_page doc n = Ok page /\ get_text page = Ok text /\ blank text = false
       /\ (forall l, l ∈ split LF text -> String.prefix "## Page" (strip l) = false)
       /\ (forall j bi x, parent_extract_image page j = Ok bi -> ext bi = Some x ->
                          no_lf x = true)) ->
  no_lf pdf_name = true ->
  for_in (seq k m) (convert_page doc pdf_name images_dir) mc st = (Ok mc', st') ->
  flat_map page_headings_of mc'
    = flat_map page_headings_of mc ++ map heading_line (seq (k + 1) m).
Proof.
  revert k mc st. induction m as [|m IH]; intros k mc st Hpages Hs Hrun.
  - injection Hrun as <- _. by rewrite app_nil_r.
  - simpl in Hrun. unfold bind in Hrun.
    destruct (convert_page doc pdf_name images_dir k mc st) as [[mc1|e] st1] eqn:H1; [|done].
    destruct (Hpages k) as (page & text & Hp & Ht & Hb & Hl & Hx); [lia|].
    rewrite (IH (S k) mc1 st1); [|intros n Hn; apply Hpages; lia|done|done].
    rewrite (convert_page_headings _ _ _ _ _ _ _ _ _ _ Hp Ht Hb Hl Hx Hs H1).
    rewrite <- app_assoc. simpl. by rewrite Nat.add_1_r.
Qed.

Lemma convert_pages_extends doc pdf_name images_dir l mc st mc' st' :
  for_in l (convert_page doc pdf_name images_dir) mc st = (Ok mc', st') ->
  exists tail, mc' = mc ++ tail.
Proof.
  revert mc st. induction l as [|n l IH]; intros mc st Hrun.
  - injection Hrun as <- _. exists []. by rewrite app_nil_r.
  - simpl in Hrun. unfold bind at 1 in Hrun.
    destruct (convert_page doc pdf_name images_dir n mc st) as [[mc1|e] st1] eqn:H1; [|done].
    apply IH in Hrun as [tail ->].
    unfold convert_page, bind, call, ret in H1.
    destruct (load_page doc n) as [page|]; [|done].
    destruct (get_text page) as [text|]; [|done].
    destruct (extract_images page pdf_name n images_dir st) as [[refs|] st2]; [|done].
    injection H1 as <- _. eexists. by rewrite <- !app_assoc.
Qed.




(** ** Further properties: what a run leaves alone *)

Lemma keeps_refl f : keeps f f.
Proof. by intros p. Qed.

Lemma keeps_trans f g h : keeps f g -> keeps g h -> keeps f h.
Proof.
  intros H1 H2 p. destruct (H1 p) as [F1 D1]. destruct (H2 p) as [F2 D2]. split; auto.
Qed.

Lemma keeps_mkdir f p : is_file f p = false -> keeps f (<[p := Dir]> f).
Proof.
  intros Hf q. destruct (decide (p = q)) as [<-|Hne].
  - rewrite is_file_insert_dir, is_dir_insert_dir, Hf. done.
  - by rewrite is_file_insert_ne, is_dir_insert_ne.
Qed.

Lemma keeps_write f p d : is_dir f p = false -> keeps f (<[p := File d]> f).
Proof.
  intros Hf q. destruct (decide (p = q)) as [<-|Hne].
  - rewrite is_file_insert_file, is_dir_insert_file, Hf. done.
  - by rewrite is_file_insert_ne, is_dir_insert_ne.
Qed.

Lemma traced_quiet_step {A} P (c : M A) r :
  (forall st, c st = (r, st)) -> traced P c.
Proof.
  intros Hc st. exists r, []. rewrite extend_nil, Hc.
  split; [done|]. split; [constructor | apply keeps_refl].
Qed.

Lemma traced_ret {A} P (a : A) : traced P (ret a).
Proof. by apply (traced_quiet_step P _ (Ok a)). Qed.

Lemma traced_raise {A} P e : traced P (@raise A e).
Proof. by apply (traced_quiet_step P _ (Raise e)). Qed.

Lemma traced_call {A} P (r : result A) : traced P (call r).
Proof. by apply (traced_quiet_step P _ r). Qed.

Lemma traced_getitem {A} P key (v : option A) : traced P (getitem key v).
Proof. destruct v; [apply traced_ret | apply traced_raise]. Qed.

Lemma traced_print (P : event -> Prop) s : P (Print s) -> traced P (print s).
Proof.
  intros HP st. exists (Ok tt), [Print s]. rewrite print_run.
  split; [done|]. split; [by repeat constructor | apply keeps_refl].
Qed.

Lemma traced_mkdir (P : event -> Prop) p : P (Mkdir p) -> traced P (mkdir p).
Proof.
  intros HP st. destruct (is_file (fs st) p) eqn:Hf.
  - destruct (mkdir_fail _ _ Hf) as [e He]. exists (Raise e), [].
    rewrite extend_nil. split; [done|]. split; [constructor | apply keeps_refl].
  - exists (Ok tt), [Mkdir p]. rewrite (mkdir_ok _ _ Hf).
    split; [done|]. split; [by repeat constructor | by apply keeps_mkdir].
Qed.

Lemma traced_write_file (P : event -> Prop) p d : P (Write p d) -> traced P (write_file p d).
Proof.
  intros HP st. destruct (is_dir (fs st) p) eqn:Hd.
  - eexists (Raise _), []. rewrite extend_nil, (write_file_fail _ _ _ Hd).
    split; [done|]. split; [constructor | apply keeps_refl].
  - exists (Ok tt), [Write p d]. rewrite (write_file_ok _ _ _ Hd).
    split; [done|]. split; [by repeat constructor | by apply keeps_write].
Qed.

Lemma traced_bind {A B} P (m : M A) (k : A -> M B) :
  traced P m -> (forall a, traced P (k a)) -> traced P (bind m k).
Proof.
  intros Hm Hk st. destruct (Hm st) as (r & evs & E & HP & K).
  unfold bind. rewrite E. destruct r as [a|e].
  - destruct (Hk a (extend st evs)) as (r' & evs' & E' & HP' & K').
    exists r', (evs ++ evs'). rewrite E', extend_extend, replay_app.
    split; [done|]. split; [by apply Forall_app|].
    eapply keeps_trans; [exact K | exact K'].
  - exists (Raise e), evs. done.
Qed.

Lemma traced_try_except {A} P (body : M A) (handler : exn -> M A) :
  traced P body -> (forall e, traced P (handler e)) -> traced P (try_except body handler).
Proof.
  intros Hm Hk st. destruct (Hm st) as (r & evs & E & HP & K).
  unfold try_except. rewrite E. destruct r as [a|e].
  - exists (Ok a), evs. done.
  - destruct (Hk e (extend st evs)) as (r' & evs' & E' & HP' & K').
    exists r', (evs ++ evs'). rewrite E', extend_extend, replay_app.
    split; [done|]. split; [by apply Forall_app|].
    eapply keeps_trans; [exact K | exact K'].
Qed.

Lemma traced_for_in {A S} P (l : list A) (body : A -> S -> M S) s :
  (forall x s', traced P (body x s')) -> traced P (for_in l body s).
Proof.
  intros Hb. revert s. induction l as [|x l IH]; intros s; simpl.
  - apply traced_ret.
  - apply traced_bind; [apply Hb | intros s'; apply IH].
Qed.

(** The events of [extract_images], of the page loop and of a conversion,
    for any property of events that holds of every warning, of the
    creation of the image directory and of the write of an image file. *)
Lemma traced_extract_images (P : event -> Prop) page pdf_name n images_dir :
  (forall k i e, P (Print (image_warning k i e))) ->
  P (Mkdir (images_dir / pdf_name)%path) ->
  (forall f d, P (Write (images_dir / pdf_name / f)%path d)) ->
  traced P (extract_images page pdf_name n images_dir).
Proof.
  intros Hwarn Hmk Hwr. unfold extract_images.
  apply traced_bind; [apply traced_call|].
  intros [|info l]; [apply traced_ret|].
  apply traced_bind; [by apply traced_mkdir|].
  intros _. apply traced_for_in. intros [i inf] refs. unfold extract_step.
  apply traced_try_except.
  - unfold extract_one. apply traced_bind; [apply traced_call|]. intros bi.
    apply traced_bind; [apply traced_getitem|]. intros b.
    apply traced_bind; [apply traced_getitem|]. intros x.
    apply traced_bind; [|intros _; apply traced_ret].
    apply traced_write_file, Hwr.
  - intros e. apply traced_bind; [|intros _; apply traced_ret].
    apply traced_print, Hwarn.
Qed.

Lemma traced_convert (P : event -> Prop) env pdf_path output_dir images_dir :
  (forall k i e, P (Print (image_warning k i e))) ->
  P (Print ("Converting: " +:+ name pdf_path)) ->
  P (Print ("  -> Created: " +:+ output_name (stem pdf_path))) ->
  P (Mkdir (images_dir / stem pdf_path)%path) ->
  (forall f d, P (Write (images_dir / stem pdf_path / f)%path d)) ->
  (forall d, P (Write (output_dir / output_name (stem pdf_path))%path d)) ->
  traced P (convert_pdf_to_markdown env pdf_path output_dir images_dir).
Proof.
  intros Hwarn Hconv Hcreated Hmk Himg Hmd. unfold convert_pdf_to_markdown.
  apply traced_bind; [by apply traced_print|]. intros _.
  apply traced_bind; [apply traced_call|]. intros doc.
  apply traced_bind.
  { apply traced_for_in. intros n mc. unfold convert_page.
    apply traced_bind; [apply traced_call|]. intros page.
    apply traced_bind; [apply traced_call|]. intros text.
    apply traced_bind; [by apply traced_extract_images | intros refs; apply traced_ret]. }
  intros mc. apply traced_bind; [|intros _; by apply traced_print].
  apply traced_write_file, Hmd.
Qed.

Lemma traced_convert_all (P : event -> Prop) env output_dir images_dir files :
  (forall k i e, P (Print (image_warning k i e))) ->
  (forall p e, P (Print (convert_error p e))) ->
  (forall s, P (Print ("  -> Created: " +:+ s))) ->
  (forall p, p ∈ files -> P (Print ("Converting: " +:+ name p))) ->
  (forall s, P (Mkdir (images_dir / s)%path)) ->
  (forall s f d, P (Write (images_dir / s / f)%path d)) ->
  (forall s d, P (Write (output_dir / output_name s)%path d)) ->
  traced P (convert_all env output_dir images_dir files).
Proof.
  intros Hwarn Herr Hcreated Hconv Hmk Himg Hmd. unfold convert_all.
  induction files as [|p files IH]; simpl; [apply traced_ret|].
  apply traced_bind.
  - apply traced_try_except.
    + apply traced_convert;
        [exact Hwarn | apply Hconv; left | apply Hcreated | apply Hmk
        | intros; apply Himg | intros; apply Hmd].
    + intros e. apply traced_print, Herr.
  - intros []. apply IH. intros q Hq. apply Hconv. by right.
Qed.

Lemma under_join (O : list string) c : O `prefix_of` (O / c)%path.
Proof. by exists [c]. Qed.

Lemma under_join2 (O : list string) c1 c2 : O `prefix_of` (O / c1 / c2)%path.
Proof. exists [c1; c2]. unfold path_join. by rewrite <- app_assoc. Qed.

Lemma under_join3 (O : list string) c1 c2 c3 : O `prefix_of` (O / c1 / c2 / c3)%path.
Proof. exists [c1; c2; c3]. unfold path_join. by rewrite <- !app_assoc. Qed.

Lemma traced_main env script_dir :
  traced (under (script_dir / "docs" / "markdown")%path) (main env script_dir).
Proof.
  unfold main.
  apply traced_bind.
  { apply traced_mkdir. exists []. by rewrite app_nil_r. }
  intros _.
  apply traced_bind; [apply traced_mkdir, under_join|]. intros _.
  destruct (sorted (glob_pdf env (script_dir / "docs" / "nfse-nacional")%path)) as [|p rest].
  - by apply traced_print.
  - apply traced_bind; [by apply traced_print|]. intros _.
    apply traced_bind.
    { apply traced_convert_all; try done.
      - intros s. apply under_join2.
      - intros s f d. apply under_join3.
      - intros s d. apply under_join. }
    intros _. apply traced_bind; [by apply traced_print|]. intros _.
    apply traced_bind; [by apply traced_print|]. intros _. by apply traced_print.
Qed.

Lemma touches_under O evs p :
  Forall (under O) evs -> p ∈ touches evs -> O `prefix_of` p.
Proof.
  intros Hall Hin. rewrite Forall_forall in Hall.
  apply touches_elem in Hin as [Hm|Hw].
  - exact (Hall _ Hm).
  - apply writes_elem in Hw as [d Hw]. exact (Hall _ Hw).
Qed.

Lemma input_not_under_output (script_dir : list string) q :
  ~ (script_dir / "docs" / "markdown")%path
      `prefix_of` ((script_dir / "docs" / "nfse-nacional")%path ++ q).
Proof.
  intros [k E]. unfold path_join in E. rewrite <- !app_assoc in E.
  apply app_inv_head in E. simpl in E. discriminate E.
Qed.

(** X1.  Started where the directory [docs] exists, a run of [main]
    creates and writes nothing outside [docs/markdown], whatever the PDF
    library answers and whether the run returns or raises: every other
    path, the input directory [docs/nfse-nacional] and all below it
    included, holds after the run what it held before.  The run deletes
    nothing: a file is still a file, a directory still a directory, and
    the console output of before is still there. *)
Theorem main_stays_under_output env script_dir st :
  let output_dir := (script_dir / "docs" / "markdown")%path in
  let pdf_dir := (script_dir / "docs" / "nfse-nacional")%path in
  let st' := snd (main env script_dir st) in
  is_dir (fs st) (script_dir / "docs")%path = true ->
  (forall p, ~ output_dir `prefix_of` p -> fs st' !! p = (fs st !! p))
  /\ (forall q, fs st' !! (pdf_dir ++ q) = (fs st !! (pdf_dir ++ q)))
  /\ keeps (fs st) (fs st')
  /\ log st `prefix_of` log st'.
Proof.
  intros output_dir pdf_dir st' _.
  destruct (traced_main env script_dir st) as (r & evs & E & Hunder & K).
  assert (Hst : st' = extend st evs) by (unfold st'; by rewrite E).
  assert (Hframe : forall p, ~ output_dir `prefix_of` p -> fs st' !! p = (fs st !! p)).
  { intros p Hp. rewrite Hst, fs_extend. apply replay_untouched.
    intros Hin. apply Hp. by apply (touches_under _ evs). }
  split; [done|]. split; [|split].
  - intros q. apply Hframe, input_not_under_output.
  - by rewrite Hst.
  - rewrite Hst. by exists evs.
Qed.

Lemma main_stays_under_output_witness :
  is_dir (fs docs_state) ([] / "docs")%path = true /\
  fs (snd (main sample_env [] docs_state)) !! ["docs"] = Some Dir /\
  fs (snd (main sample_env [] docs_state)) !! ["docs"; "nfse-nacional"; "nota.pdf"] = None.
Proof.
  split; [reflexivity|].
  destruct (main_stays_under_output sample_env [] docs_state eq_refl)
    as (Hframe & Hinput & _).
  split.
  - rewrite Hframe; [reflexivity|].
    intros [k Hk]. discriminate Hk.
  - exact (Hinput ["nota.pdf"]).
Defined.

(** ** Further properties: the batch as a whole *)

Lemma convert_ok_file env pdf_path output_dir images_dir st st' :
  convert_pdf_to_markdown env pdf_path output_dir images_dir st = (Ok tt, st') ->
  is_file (fs st') (output_dir / output_name (stem pdf_path))%path = true.
Proof.
  intros Hrun.
  destruct (convert_trace env pdf_path output_dir images_dir st)
    as (r & evs & tail & Hr & _ & _ & _ & Htail).
  rewrite Hrun in Hr. injection Hr as <- ->.
  destruct Htail as [(e & [=] & _)|(_ & content & ->)].
  assert (Hmd : fs (extend st (Print ("Converting: " +:+ name pdf_path) :: evs
                     ++ [Write (output_dir / output_name (stem pdf_path))%path (Utf8 content);
                         Print ("  -> Created: " +:+ output_name (stem pdf_path))]))
                  !! (output_dir / output_name (stem pdf_path))%path
                = Some (File (Utf8 content))).
  { rewrite fs_extend.
    apply (replay_last_write (Print ("Converting: " +:+ name pdf_path) :: evs)
             [Print ("  -> Created: " +:+ output_name (stem pdf_path))]).
    simpl. intros H. inversion H. }
  unfold is_file. by rewrite Hmd.
Qed.

Lemma convert_all_grows env output_dir images_dir files st r st' :
  convert_all env output_dir images_dir files st = (r, st') ->
  keeps (fs st) (fs st') /\ log st `prefix_of` log st'.
Proof.
  intros Hrun.
  destruct (traced_convert_all (fun _ => True) env output_dir images_dir files
              ltac:(done) ltac:(done) ltac:(done) ltac:(done) ltac:(done) ltac:(done)
              ltac:(done) st) as (r' & evs & E & _ & K).
  rewrite Hrun in E. injection E as -> ->. split; [done | by exists evs].
Qed.

Lemma convert_all_accounts env output_dir images_dir files st st' p :
  convert_all env output_dir images_dir files st = (Ok tt, st') ->
  p ∈ files ->
  is_file (fs st') (output_dir / output_name (stem p))%path = true
  \/ exists e, Print (convert_error p e) ∈ log st'.
Proof.
  revert st. induction files as [|q files IH]; intros st Hrun Hin; [inversion Hin|].
  rewrite convert_all_cons in Hrun.
  apply elem_of_cons in Hin as [->|Hin].
  - destruct (convert_pdf_to_markdown env q output_dir images_dir st)
      as [[[]|e] st1] eqn:Hq.
    + left. apply convert_ok_file in Hq.
      apply convert_all_grows in Hrun as [K _]. by apply K.
    + right. exists e. apply convert_all_grows in Hrun as [_ [k Hk]].
      rewrite Hk, log_extend. apply elem_of_app. left. apply elem_of_app. right. left.
  - destruct (convert_pdf_to_markdown env q output_dir images_dir st)
      as [[[]|e] st1]; by apply (IH _ Hrun).
Qed.

Lemma sorted_elem l p : p ∈ sorted l <-> p ∈ l.
Proof. unfold sorted. by rewrite merge_sort_Permutation. Qed.

(** X2.  Started where the directory [docs] exists and no regular file
    stands in the place of its output or image directory, [main] returns
    normally and accounts for every PDF of the input directory: when it
    ends, either the Markdown file of the PDF is on disk or a line
    [  Error converting <name>: <message>] for it is on the console. *)
Theorem every_pdf_accounted env script_dir st :
  let pdf_dir := (script_dir / "docs" / "nfse-nacional")%path in
  let output_dir := (script_dir / "docs" / "markdown")%path in
  let images_dir := (output_dir / "images")%path in
  is_dir (fs st) (script_dir / "docs")%path = true ->
  is_file (fs st) output_dir = false ->
  is_file (fs st) images_dir = false ->
  exists st',
    main env script_dir st = (Ok tt, st')
    /\ forall p, p ∈ glob_pdf env pdf_dir ->
         is_file (fs st') (output_dir / (stem p +:+ ".md"))%path = true
         \/ exists msg,
              Print ("  Error converting " +:+ name p +:+ ": " +:+ msg) ∈ log st'.
Proof.
  intros pdf_dir output_dir images_dir _ HO HI.
  destruct (main_run env script_dir st HO HI) as (st' & Hrun & _ & Hfiles).
  exists st'. split; [exact Hrun|]. intros p Hp.
  apply sorted_elem in Hp. fold pdf_dir in Hfiles.
  destruct Hfiles as (st1 & H1 & ->).
  { intros E. rewrite E in Hp. inversion Hp. }
  destruct (convert_all_accounts _ _ _ _ _ _ p H1 Hp) as [Hf|[[msg] He]].
  - left. exact Hf.
  - right. exists msg. rewrite log_extend. apply elem_of_app. by left.
Qed.

Lemma every_pdf_accounted_witness :
  is_dir (fs docs_state) ([] / "docs")%path = true /\
  is_file (fs docs_state) ([] / "docs" / "markdown")%path = false /\
  is_file (fs docs_state) ([] / "docs" / "markdown" / "images")%path = false /\
  exists st',
    main broken_env [] docs_state = (Ok tt, st')
    /\ (is_file (fs st') ["docs"; "markdown"; "nota.md"] = true
        \/ exists msg, Print ("  Error converting nota.pdf: " +:+ msg) ∈ log st').
Proof.
  split; [reflexivity|]. split; [reflexivity|]. split; [reflexivity|].
  destruct (every_pdf_accounted broken_env [] docs_state eq_refl eq_refl eq_refl)
    as (st' & Hrun & Hall).
  exists st'. split; [exact Hrun|]. apply (Hall nota_pdf). left.
Defined.

(** X3.  Started where the directory [docs] exists and no regular file
    stands in the place of its output or image directory, and with no PDF
    in the input directory, [main] makes its two directories, prints
    [No PDF files found in <pdf_dir>] and returns normally: it writes no
    file and prints nothing else. *)
Theorem main_empty_directory env script_dir st :
  let pdf_dir := (script_dir / "docs" / "nfse-nacional")%path in
  let output_dir := (script_dir / "docs" / "markdown")%path in
  let images_dir := (output_dir / "images")%path in
  glob_pdf env pdf_dir = [] ->
  is_dir (fs st) (script_dir / "docs")%path = true ->
  is_file (fs st) output_dir = false ->
  is_file (fs st) images_dir = false ->
  exists evs,
    main env script_dir st = (Ok tt, extend st evs)
    /\ evs = [Mkdir output_dir; Mkdir images_dir;
              Print ("No PDF files found in " +:+ path_str pdf_dir)]
    /\ writes evs = []
    /\ forall p, p <> output_dir -> p <> images_dir -> fs (extend st evs) !! p = (fs st !! p).
Proof.
  intros pdf_dir output_dir images_dir Hglob _ HO HI.
  destruct (main_run env script_dir st HO HI) as (st' & Hrun & Hnone & _).
  fold pdf_dir in Hnone. rewrite Hglob in Hnone.
  eexists. split; [rewrite Hrun, (Hnone eq_refl); reflexivity|].
  split; [reflexivity|]. split; [reflexivity|].
  intros p H1 H2. rewrite fs_extend. apply replay_untouched. simpl.
  rewrite !elem_of_cons. intros [->|[->|H]]; [done | done | inversion H].
Qed.

Lemma main_empty_directory_witness :
  glob_pdf empty_env ([] / "docs" / "nfse-nacional")%path = [] /\
  is_dir (fs docs_state) ([] / "docs")%path = true /\
  is_file (fs docs_state) ([] / "docs" / "markdown")%path = false /\
  is_file (fs docs_state) ([] / "docs" / "markdown" / "images")%path = false /\
  main empty_env [] docs_state
    = (Ok tt, extend docs_state
                [Mkdir ["docs"; "markdown"]; Mkdir ["docs"; "markdown"; "images"];
                 Print "No PDF files found in docs/nfse-nacional"]).
Proof.
  split; [reflexivity|]. split; [reflexivity|]. split; [reflexivity|].
  split; [reflexivity|].
  destruct (main_empty_directory empty_env [] docs_state eq_refl eq_refl eq_refl eq_refl)
    as (evs & Hrun & -> & _).
  exact Hrun.
Defined.

(** X4.  The creation of the two directories is not guarded.  When a
    regular file stands in the place of the output directory, [main]
    raises at once and leaves the state as it is; when one stands in the
    place of the image directory, [main] raises after creating the output
    directory only.  In both cases no PDF is converted and nothing is
    printed. *)
Theorem main_needs_directories env script_dir st :
  let output_dir := (script_dir / "docs" / "markdown")%path in
  let images_dir := (output_dir / "images")%path in
  (is_file (fs st) output_dir = true ->
     exists e, main env script_dir st = (Raise e, st))
  /\ (is_file (fs st) output_dir = false -> is_file (fs st) images_dir = true ->
        exists e, main env script_dir st = (Raise e, extend st [Mkdir output_dir])).
Proof.
  intros output_dir images_dir. split.
  - intros HO. destruct (mkdir_fail _ _ HO) as [e He].
    exists e. unfold main. fold output_dir. unfold bind at 1. by rewrite He.
  - intros HO HI. unfold main. fold output_dir images_dir. unfold bind at 1.
    rewrite (mkdir_ok _ _ HO). unfold bind at 1.
    destruct (mkdir_fail images_dir (extend st [Mkdir output_dir])) as [e He].
    { rewrite fs_extend. simpl. rewrite is_file_insert_ne; [done|].
      intros E. symmetry in E. by apply path_join_ne_self in E. }
    exists e. by rewrite He.
Qed.

Lemma main_needs_directories_witness :
  is_file (fs blocked_state) ([] / "docs" / "markdown")%path = true /\
  exists e, main broken_env [] blocked_state = (Raise e, blocked_state).
Proof.
  split; [reflexivity|].
  apply (proj1 (main_needs_directories broken_env [] blocked_state) eq_refl).
Defined.

(** ** Further properties: a conversion that succeeds *)

Lemma apply_event_mkdir f p : apply_event f (Mkdir p) = <[p := Dir]> f.
Proof. reflexivity. Qed.

Lemma extracted_ext page f g dir n slots :
  (forall i x, is_dir f (dir / image_filename n i x)%path
               = is_dir g (dir / image_filename n i x)%path) ->
  extracted page f dir n slots = extracted page g dir n slots.
Proof.
  intros H. unfold extracted. induction slots as [|slot slots IH]; [done|].
  simpl. rewrite IH. by rewrite (attempt_ext page f g) by (intros x; apply H).
Qed.

Lemma slot_events_dirs page f dir n slots g q :
  (forall i x, is_dir g (dir / image_filename n i x)%path
               = is_dir f (dir / image_filename n i x)%path) ->
  is_dir (replay (slot_events page f dir n slots) g) q = is_dir g q.
Proof.
  revert g. induction slots as [|slot slots IH]; intros g Hg; [done|].
  change (slot :: slots) with ([slot] ++ slots).
  rewrite slot_events_app, replay_app.
  assert (Hstep : forall q', is_dir (replay (slot_events page f dir n [slot]) g) q' = is_dir g q').
  { intros q'. simpl. destruct (attempt page f dir n slot) as [[x b]|e] eqn:Ea; [|done].
    simpl. destruct (decide ((dir / image_filename n (fst slot) x)%path = q')) as [<-|Hne].
    - rewrite is_dir_insert_file, Hg. symmetry. by apply (attempt_ok_not_dir page f dir n slot x b).
    - by rewrite is_dir_insert_ne. }
  rewrite IH; [apply Hstep|]. intros i x. by rewrite Hstep.
Qed.

Lemma slot_events_keep_dir_free page f dir n slots g :
  is_file (replay (slot_events page f dir n slots) g) dir = is_file g dir.
Proof.
  unfold is_file. rewrite replay_untouched; [done|].
  intros Hin. apply slot_events_touches in Hin as (i & x & _ & E).
  symmetry in E. by apply path_join_ne_self in E.
Qed.

(** One page whose calls all succeed, on a state where the image directory
    can be made. *)
Lemma convert_page_ok doc pdf_name images_dir n mc st f0 page text imgs :
  let dir := (images_dir / pdf_name)%path in
  load_page doc n = Ok page ->
  get_text page = Ok text ->
  get_images page = Ok imgs ->
  (forall q, q <> dir -> is_dir (fs st) q = is_dir f0 q) ->
  is_file (fs st) dir = false ->
  exists st',
    convert_page doc pdf_name images_dir n mc st
      = (Ok (mc ++ page_section pdf_name dir f0 n page text imgs), st')
    /\ (forall q, q <> dir -> is_dir (fs st') q = is_dir f0 q)
    /\ is_file (fs st') dir = false
    /\ (imgs = [] -> st' = st).
Proof.
  intros dir Hp Ht Hi Hinv Hfree.
  assert (Himg : forall i x, is_dir (fs st) (dir / image_filename n i x)%path
                              = is_dir f0 (dir / image_filename n i x)%path).
  { intros i x. apply Hinv. apply path_join_ne_self. }
  destruct imgs as [|info l].
  - exists st. rewrite (convert_page_run _ _ _ _ _ _ _ _ _ _ Hp Ht
                         (extract_images_none _ pdf_name n images_dir st Hi)).
    unfold page_section. simpl. rewrite <- app_assoc. done.
  - pose proof (extract_images_run _ pdf_name n images_dir st _ _ Hi Hfree) as Hrun.
    cbv zeta in Hrun. fold dir in Hrun.
    eexists. rewrite (convert_page_run _ _ _ _ _ _ _ _ _ _ Hp Ht Hrun).
    split; [|split; [|split]].
    + unfold page_section. rewrite <- app_assoc.
      by rewrite (extracted_ext page (fs st) f0) by exact Himg.
    + intros q Hq. rewrite fs_extend, replay_cons, apply_event_mkdir.
      rewrite slot_events_dirs.
      * rewrite is_dir_insert_ne by done. by apply Hinv.
      * intros i x. rewrite is_dir_insert_ne; [done|].
        apply not_eq_sym, path_join_ne_self.
    + rewrite fs_extend, replay_cons, apply_event_mkdir.
      rewrite slot_events_keep_dir_free. apply is_file_insert_dir.
    + done.
Qed.

Lemma convert_pages_ok doc pdf_name images_dir f0 pg tx im m k mc st :
  let dir := (images_dir / pdf_name)%path in
  (forall n, k <= n < k + m ->
     load_page doc n = Ok (pg n) /\ get_text (pg n) = Ok (tx n)
     /\ get_images (pg n) = Ok (im n)) ->
  (forall q, q <> dir -> is_dir (fs st) q = is_dir f0 q) ->
  is_file (fs st) dir = false ->
  exists st',
    for_in (seq k m) (convert_page doc pdf_name images_dir) mc st
      = (Ok (mc ++ flat_map (fun n => page_section pdf_name dir f0 n (pg n) (tx n) (im n))
                            (seq k m)), st')
    /\ (forall q, q <> dir -> is_dir (fs st') q = is_dir f0 q)
    /\ ((forall n, k <= n < k + m -> im n = []) -> st' = st).
Proof.
  intros dir. subst dir.
  revert k mc st. induction m as [|m IH]; intros k mc st Hpages Hinv Hfree.
  - exists st. simpl. unfold ret. by rewrite app_nil_r.
  - destruct (Hpages k) as (Hp & Ht & Hi); [lia|].
    destruct (convert_page_ok doc pdf_name images_dir k mc st f0 _ _ _ Hp Ht Hi Hinv Hfree)
      as (st1 & H1 & Hinv1 & Hfree1 & Hsame1).
    destruct (IH (S k) (mc ++ page_section pdf_name (images_dir / pdf_name)%path f0 k
                                 (pg k) (tx k) (im k)) st1)
      as (st' & H2 & Hinv2 & Hsame2); [intros n Hn; apply Hpages; lia | done | done |].
    exists st'. simpl. unfold bind. rewrite H1, H2, <- app_assoc.
    split; [done|]. split; [done|].
    intros Hnone. rewrite Hsame2 by (intros n Hn; apply Hnone; lia).
    apply Hsame1, Hnone. lia.
Qed.

Lemma convert_ok env pdf_path output_dir st doc pg tx im :
  let images_dir := (output_dir / "images")%path in
  let dir := (images_dir / stem pdf_path)%path in
  let output_path := (output_dir / output_name (stem pdf_path))%path in
  let content :=
    join nl (header pdf_path
             ++ flat_map (fun n => page_section (stem pdf_path) dir (fs st) n
                                     (pg n) (tx n) (im n))
                         (seq 0 (len doc))) in
  fitz_open env pdf_path = Ok doc ->
  (forall n, n < len doc ->
     load_page doc n = Ok (pg n) /\ get_text (pg n) = Ok (tx n)
     /\ get_images (pg n) = Ok (im n)) ->
  is_file (fs st) dir = false ->
  is_dir (fs st) output_path = false ->
  exists evs,
    convert_pdf_to_markdown env pdf_path output_dir images_dir st
      = (Ok tt, extend st (Print ("Converting: " +:+ name pdf_path) :: evs
                           ++ [Write output_path (Utf8 content);
                               Print ("  -> Created: " +:+ output_name (stem pdf_path))]))
    /\ ((forall n, n < len doc -> im n = []) -> evs = []).
Proof.
  intros images_dir dir output_path content Hopen Hpages Hfree Hmd.
  unfold convert_pdf_to_markdown, bind. rewrite print_run. unfold call at 1. rewrite Hopen.
  destruct (convert_pages_trace doc (stem pdf_path) images_dir (len doc) 0
              (header pdf_path) (extend st [Print ("Converting: " +:+ name pdf_path)]))
    as (r & evs & Hr & _ & _).
  destruct (convert_pages_ok doc (stem pdf_path) images_dir (fs st) pg tx im (len doc) 0
              (header pdf_path) (extend st [Print ("Converting: " +:+ name pdf_path)]))
    as (st1 & H1 & Hinv1 & Hsame); [intros n Hn; apply Hpages; lia | done | done |].
  fold dir in H1, Hinv1. rewrite H1 in Hr. injection Hr as <- ->.
  rewrite H1, write_file_ok.
  - rewrite print_run, !extend_extend. exists evs. split.
    + fold content output_path. do 2 f_equal.
    + intros Hnone.
      assert (E : extend (extend st [Print ("Converting: " +:+ name pdf_path)]) evs
                  = extend st [Print ("Converting: " +:+ name pdf_path)])
        by (apply Hsame; intros n Hn; apply Hnone; lia).
      apply (f_equal log) in E. rewrite !log_extend in E.
      rewrite <- (app_nil_r (log st ++ _)) in E at 2.
      by apply app_inv_head in E.
  - rewrite Hinv1; [exact Hmd|].
    apply path_depth_ne. unfold dir, images_dir. rewrite !path_join_length. lia.
Qed.

(** X5.  When [main] calls it, a conversion in which the document opens
    and every page gives its text and its image listing returns normally,
    however many single images fail, provided no regular file stands in
    the place of the image directory and no directory in the place of the
    Markdown file.  The Markdown file then holds, whatever was there
    before, the fragments joined by line feeds: the title line, the
    provenance line and the rule, then for each page in order the
    fragments of its text and those of its images. *)
Theorem conversion_succeeds env pdf_path output_dir st doc pg tx im :
  let images_dir := (output_dir / "images")%path in
  let dir := (images_dir / stem pdf_path)%path in
  let output_path := (output_dir / output_name (stem pdf_path))%path in
  fitz_open env pdf_path = Ok doc ->
  (forall n, n < len doc ->
     load_page doc n = Ok (pg n) /\ get_text (pg n) = Ok (tx n)
     /\ get_images (pg n) = Ok (im n)) ->
  is_file (fs st) dir = false ->
  is_dir (fs st) output_path = false ->
  exists st',
    convert_pdf_to_markdown env pdf_path output_dir images_dir st = (Ok tt, st')
    /\ fs st' !! output_path
       = Some (File (Utf8 (join nl
           (header pdf_path
            ++ flat_map (fun n => page_section (stem pdf_path) dir (fs st) n
                                    (pg n) (tx n) (im n))
                        (seq 0 (len doc))))))
    /\ last (log st') = Some (Print ("  -> Created: " +:+ output_name (stem pdf_path))).
Proof.
  intros images_dir dir output_path Hopen Hpages Hfree Hmd.
  destruct (convert_ok env pdf_path output_dir st doc pg tx im Hopen Hpages Hfree Hmd)
    as (evs & Hrun & _).
  eexists. split; [exact Hrun|]. split.
  - rewrite fs_extend.
    apply (replay_last_write (Print ("Converting: " +:+ name pdf_path) :: evs)
             [Print ("  -> Created: " +:+ output_name (stem pdf_path))]).
    simpl. intros H. inversion H.
  - rewrite log_extend.
    change (Print ("Converting: " +:+ name pdf_path) :: evs ++ ?t)
      with ((Print ("Converting: " +:+ name pdf_path) :: evs) ++ t).
    rewrite !app_assoc.
    change [Write ?p ?d; ?e] with ([Write p d] ++ [e]). rewrite app_assoc.
    apply last_snoc.
Qed.

Lemma conversion_succeeds_witness :
  exists st',
    convert_pdf_to_markdown sample_env nota_pdf ["out"] (["out"] / "images")%path empty_state
      = (Ok tt, st')
    /\ last (log st') = Some (Print "  -> Created: nota.md").
Proof.
  destruct (conversion_succeeds sample_env nota_pdf ["out"] empty_state sample_doc
              (fun _ => page_bad_good) (fun _ => "Nota fiscal")
              (fun _ => [ {| xref := 7 |}; {| xref := 8 |} ])
              eq_refl (fun n _ => conj eq_refl (conj eq_refl eq_refl)) eq_refl eq_refl)
    as (st' & Hrun & _ & Hlast).
  exists st'. split; [exact Hrun | exact Hlast].
Defined.

(** X6.  When [main] calls it (images under [output_dir / "images"], the
    output directory in place), for a PDF that opens and whose pages all
    have a blank text and list no image, and with no regular file in the
    place of the image directory of the document and no directory in the
    place of the Markdown file, the conversion returns normally and
    changes one path only: the Markdown file, which holds the title line,
    the provenance line and the rule and nothing else; no image directory
    is created. *)
Theorem blank_pages_give_header_only env pdf_path output_dir st doc pg tx :
  let images_dir := (output_dir / "images")%path in
  let output_path := (output_dir / (stem pdf_path +:+ ".md"))%path in
  fitz_open env pdf_path = Ok doc ->
  (forall n, n < len doc ->
     load_page doc n = Ok (pg n) /\ get_text (pg n) = Ok (tx n)
     /\ blank (tx n) = true /\ get_images (pg n) = Ok []) ->
  is_dir (fs st) output_dir = true ->
  is_file (fs st) (images_dir / stem pdf_path)%path = false ->
  is_dir (fs st) output_path = false ->
  exists st',
    convert_pdf_to_markdown env pdf_path output_dir images_dir st = (Ok tt, st')
    /\ fs st' = <[output_path :=
                    File (Utf8 (title_line (stem pdf_path) +:+ nl
                                +:+ "*Converted from: " +:+ name pdf_path +:+ "*" +:+ nl +:+ nl
                                +:+ "---" +:+ nl))]> (fs st).
Proof.
  intros images_dir output_path Hopen Hpages _ Hfree Hmd.
  destruct (convert_ok env pdf_path output_dir st doc pg tx (fun _ => []) Hopen)
    as (evs & Hrun & Hevs); [|done|done|].
  { intros n Hn. destruct (Hpages n Hn) as (H1 & H2 & _ & H4). done. }
  rewrite (Hevs ltac:(done)) in Hrun. clear Hevs.
  assert (Hgen : forall l, (forall n, n ∈ l -> n < len doc) ->
            flat_map (fun n => page_section (stem pdf_path)
                                 (images_dir / stem pdf_path)%path (fs st) n
                                 (pg n) (tx n) []) l = []).
  { induction l as [|n l IH]; intros Hall; [done|]. simpl.
    rewrite IH by (intros k Hk; apply Hall; by right).
    destruct (Hpages n) as (_ & _ & Hb & _); [apply Hall; left|].
    unfold page_section. rewrite text_fragments_eq, Hb. done. }
  fold images_dir in Hrun.
  rewrite Hgen, app_nil_r in Hrun by (intros n Hn; apply elem_of_seq in Hn; lia).
  eexists. split; [exact Hrun|].
  rewrite fs_extend. unfold header.
  rewrite !join_cons, join_singleton, !string_app_assoc. reflexivity.
Qed.

Lemma blank_pages_give_header_only_witness :
  exists st',
    convert_pdf_to_markdown blank_env nota_pdf ["out"] (["out"] / "images")%path out_state
      = (Ok tt, st')
    /\ fs st' !! ["out"; "nota.md"]
       = Some (File (Utf8 ("# Nota" +:+ nl +:+ nl
                           +:+ "*Converted from: nota.pdf*" +:+ nl +:+ nl
                           +:+ "---" +:+ nl)))
    /\ fs st' !! ["out"; "images"; "nota"] = None.
Proof.
  destruct (blank_pages_give_header_only blank_env nota_pdf ["out"] out_state blank_doc
              (fun n => {| get_text := Ok (if Nat.eqb n 0 then "  " +:+ nl +:+ " " else "");
                           get_images := Ok [];
                           parent_extract_image := fun _ => Raise (Exception "no image") |})
              (fun n => if Nat.eqb n 0 then "  " +:+ nl +:+ " " else "")
              eq_refl) as (st' & Hrun & Hfs).
  - intros n Hn. split; [reflexivity|]. split; [reflexivity|]. split; [|reflexivity].
    by destruct n as [|[|n]].
  - reflexivity.
  - reflexivity.
  - reflexivity.
  - exists st'. split; [exact Hrun|]. rewrite Hfs. split; reflexivity.
Defined.

(** ** Further properties: references, keys, order *)

(** X7.  When [main] calls it, every reference that [extract_images]
    returns is a link [images/<pdf_name>/<file>] whose target, read from
    the output directory where the Markdown file is, is a file that
    exists when the function returns and that holds image bytes. *)
Theorem references_resolve page pdf_name n output_dir st refs st' :
  extract_images page pdf_name n (output_dir / "images")%path st = (Ok refs, st') ->
  Forall (fun r => exists f b,
            r = "![Image](" +:+ path_str ["images"; pdf_name; f] +:+ ")"
            /\ fs st' !! (output_dir ++ ["images"; pdf_name; f]) = Some (File (Bytes b)))
         refs.
Proof.
  intros Hrun. destruct (get_images page) as [[|info l]|e] eqn:Hl.
  - rewrite (extract_images_none _ _ _ _ _ Hl) in Hrun. injection Hrun as <- _. constructor.
  - destruct (is_file (fs st) (output_dir / "images" / pdf_name)%path) eqn:Hf.
    + destruct (extract_images_mkdir_fails _ pdf_name n _ _ _ _ Hl Hf) as [e He]. congruence.
    + pose proof (extract_images_run _ pdf_name n _ _ _ _ Hl Hf) as Hgo. cbv zeta in Hgo.
      rewrite Hgo in Hrun. clear Hgo.
      set (dir := (output_dir / "images" / pdf_name)%path) in *.
      set (slots := enumerate 1 (info :: l)) in *.
      assert (refs = map (ref_of pdf_name n) (extracted page (fs st) dir n slots)
              /\ st' = extend st (Mkdir dir :: slot_events page (fs st) dir n slots))
        as [-> ->] by (split; congruence).
      apply Forall_forall. intros r Hr.
      apply list_elem_of_fmap in Hr as ([[i x] b] & -> & Ht).
      exists (image_filename n i x), b. split; [reflexivity|].
      replace (output_dir ++ ["images"; pdf_name; image_filename n i x])
        with (dir / image_filename n i x)%path
        by (unfold dir, path_join; by rewrite <- !app_assoc).
      rewrite fs_extend, replay_cons.
      apply slot_events_files; [apply NoDup_enumerate | done].
  - rewrite (extract_images_listing_fails _ _ _ _ _ _ Hl) in Hrun. congruence.
Qed.

Lemma references_resolve_witness :
  exists st',
    extract_images page_bad_good "nota" 0 (["out"] / "images")%path empty_state
      = (Ok ["![Image](images/nota/page1_img2.png)"], st')
    /\ exists f b, fs st' !! ["out"; "images"; "nota"; f] = Some (File (Bytes b)).
Proof.
  eexists. split; [vm_compute; reflexivity|].
  pose proof (references_resolve page_bad_good "nota" 0 ["out"] empty_state _ _ eq_refl) as H.
  apply Forall_cons in H as [(f & b & Hr & Hf) _].
  exists f, b. exact Hf.
Defined.

(** X8.  An image whose dictionary lacks the key ["image"] or the key
    ["ext"] is skipped like any other failure: the turn of the loop
    returns normally with the references unchanged, writes nothing (also
    when the bytes were there and only the extension was missing) and
    prints the warning with the name of the missing key, ['image'] being
    reported when both are missing. *)
Theorem missing_key_is_a_warning page pdf_name n dir i info refs st bi :
  parent_extract_image page (xref info) = Ok bi ->
  image bi = None \/ ext bi = None ->
  extract_step page pdf_name n dir (i, info) refs st
    = (Ok refs,
       extend st [Print ("    Warning: Could not extract image " +:+ str i
                         +:+ " from page " +:+ str (n + 1) +:+ ": "
                         +:+ match image bi with None => "'image'" | Some _ => "'ext'" end)]).
Proof.
  intros Hbi Hkey. rewrite extract_step_run. unfold attempt, fetch. simpl.
  rewrite Hbi. destruct (image bi) as [b|]; [|done].
  destruct Hkey as [[=]|Hx]. by rewrite Hx.
Qed.

Lemma missing_key_is_a_warning_witness :
  extract_step page_no_ext "nota" 0 ["images"; "nota"] (1, {| xref := 5 |}) [] empty_state
    = (Ok [],
       extend empty_state
         [Print "    Warning: Could not extract image 1 from page 1: 'ext'"]).
Proof.
  apply (missing_key_is_a_warning page_no_ext "nota" 0 ["images"; "nota"] 1 {| xref := 5 |}
           [] empty_state _ eq_refl (or_intror eq_refl)).
Defined.

(** X9.  A PDF that cannot be opened costs two console lines and nothing
    else: [Converting: <name>] and [Error converting <name>: <e>] with
    the message of the exception; the file system is as before and the
    loop goes on with the next file. *)
Theorem unreadable_pdf_is_reported env output_dir images_dir p rest st e :
  fitz_open env p = Raise e ->
  let st1 := extend st [Print ("Converting: " +:+ name p);
                        Print ("  Error converting " +:+ name p +:+ ": " +:+ str_exn e)] in
  convert_all env output_dir images_dir (p :: rest) st
    = convert_all env output_dir images_dir rest st1
  /\ fs st1 = fs st.
Proof.
  intros Hopen st1. split; [|reflexivity].
  rewrite convert_all_cons. unfold convert_pdf_to_markdown, bind.
  rewrite print_run. unfold call. rewrite Hopen. by rewrite extend_extend.
Qed.

Lemma unreadable_pdf_is_reported_witness :
  convert_all empty_env ["out"] ["out"; "images"] [nota_pdf] empty_state
    = (Ok tt, extend empty_state [Print "Converting: nota.pdf";
                                  Print "  Error converting nota.pdf: no such file"]).
Proof.
  apply (proj1 (unreadable_pdf_is_reported empty_env ["out"] ["out"; "images"] nota_pdf []
                  empty_state (Exception "no such file") eq_refl)).
Defined.

Lemma lstrip_id s :
  (forall c, first_char s = Some c -> is_space c = false) -> lstrip s = s.
Proof. destruct s as [|x s]; [done|]. simpl. intros H. by rewrite (H x eq_refl). Qed.

Lemma rstrip_id s :
  (forall c, last_char s = Some c -> is_space c = false) -> rstrip s = s.
Proof.
  induction s as [|x s IH]; [done|]. intros H. rewrite rstrip_cons.
  destruct s as [|y r].
  - simpl. by rewrite (H x eq_refl).
  - rewrite IH; [done|]. intros c Hc. apply H. exact Hc.
Qed.

Lemma strip_trimmed s : trimmed s -> strip s = s.
Proof. intros [H1 H2]. unfold strip. by rewrite (lstrip_id s H1), (rstrip_id s H2). Qed.

(** X10.  The clean-up of a page text is stable: the text block it gives
    (the trimmed lines that are not empty, joined by line feeds), cleaned
    up again, gives the same lines. *)
Theorem text_block_is_stable text :
  let block := join nl (process_lines (split LF text) []) in
  process_lines (split LF block) [] = process_lines (split LF text) [].
Proof.
  intros block. unfold block. rewrite !process_lines_filter. simpl.
  set (lines := filter (fun l : string => l <> "") (map strip (split LF text))).
  assert (Hlines : Forall (fun l => l <> "" /\ trimmed l /\ no_lf l = true) lines).
  { apply Forall_forall. intros l Hl. unfold lines in Hl.
    apply list_elem_of_filter in Hl as [Hne Hl].
    apply list_elem_of_fmap in Hl as (l0 & -> & Hl0).
    split; [done|]. split.
    - by destruct (strip_spec l0) as (a & b & _ & _ & _ & Htr).
    - apply strip_no_lf. pose proof (split_lines_no_lf text) as Hall.
      rewrite Forall_forall in Hall. by apply Hall. }
  clearbody lines. destruct (decide (lines = [])) as [->|Hne]; [reflexivity|].
  rewrite split_join_lines; [|done|].
  - clear Hne. induction Hlines as [|l ls (Hne & Htr & _) _ IH]; [done|].
    simpl. rewrite (strip_trimmed l Htr), filter_cons, decide_True by done.
    by rewrite IH.
  - eapply Forall_impl; [exact Hlines|]. by intros l (_ & _ & H).
Qed.

(** ** Further properties: the order of the conversions *)

Lemma prefix_app a b : String.prefix a (a +:+ b) = true.
Proof.
  induction a as [|x a IH]; [by destruct b|].
  rewrite string_app_cons. simpl. by destruct (ascii_dec x x).
Qed.

Lemma converting_lines_app evs1 evs2 :
  converting_lines (evs1 ++ evs2) = converting_lines evs1 ++ converting_lines evs2.
Proof. unfold converting_lines. apply flat_map_app. Qed.

Lemma converting_lines_quiet evs : Forall quiet evs -> converting_lines evs = [].
Proof.
  induction 1 as [|ev evs Hev _ IH]; [done|].
  change (ev :: evs) with ([ev] ++ evs). by rewrite converting_lines_app, Hev, IH.
Qed.

Lemma convert_converting_lines env pdf_path output_dir images_dir st :
  exists r evs,
    convert_pdf_to_markdown env pdf_path output_dir images_dir st = (r, extend st evs)
    /\ converting_lines evs = ["Converting: " +:+ name pdf_path].
Proof.
  unfold convert_pdf_to_markdown. unfold bind at 1. rewrite print_run.
  match goal with
  | |- exists r evs, ?c ?s = _ /\ _ => assert (Hc : traced quiet c)
  end.
  { apply traced_bind; [apply traced_call|]. intros doc.
    apply traced_bind.
    { apply traced_for_in. intros n mc. unfold convert_page.
      apply traced_bind; [apply traced_call|]. intros page.
      apply traced_bind; [apply traced_call|]. intros text.
      apply traced_bind; [|intros refs; apply traced_ret].
      apply traced_extract_images; done. }
    intros mc. apply traced_bind; [|intros _; by apply traced_print].
    by apply traced_write_file. }
  destruct (Hc (extend st [Print ("Converting: " +:+ name pdf_path)]))
    as (r & evs & E & Hq & _).
  exists r, ([Print ("Converting: " +:+ name pdf_path)] ++ evs).
  rewrite E, extend_extend. split; [done|].
  rewrite converting_lines_app, (converting_lines_quiet evs Hq), app_nil_r.
  unfold converting_lines. simpl. by rewrite prefix_app.
Qed.

Lemma convert_all_converting_lines env output_dir images_dir files st :
  exists evs,
    convert_all env output_dir images_dir files st = (Ok tt, extend st evs)
    /\ converting_lines evs = map (fun p => "Converting: " +:+ name p) files.
Proof.
  revert st. induction files as [|p files IH]; intros st.
  - exists []. by rewrite extend_nil.
  - rewrite convert_all_cons.
    destruct (convert_converting_lines env p output_dir images_dir st)
      as (r & evs1 & E1 & H1).
    rewrite E1. destruct r as [[]|e].
    + destruct (IH (extend st evs1)) as (evs2 & E2 & H2).
      exists (evs1 ++ evs2). rewrite E2, extend_extend, converting_lines_app, H1, H2. done.
    + destruct (IH (extend (extend st evs1) [Print (convert_error p e)]))
        as (evs2 & E2 & H2).
      exists (evs1 ++ [Print (convert_error p e)] ++ evs2).
      rewrite E2, !extend_extend. split; [done|].
      rewrite !converting_lines_app, H1, H2. reflexivity.
Qed.

(** X11.  Started where the directory [docs] exists and no regular file
    stands in the place of its output or image directory, [main] returns
    normally and converts every PDF of the input directory exactly once
    and in ascending order of file name, whatever order the directory
    listing has: the [Converting: ] lines of the console are those of the
    listing sorted by name. *)
Theorem conversions_in_name_order env script_dir st :
  let pdf_dir := (script_dir / "docs" / "nfse-nacional")%path in
  let output_dir := (script_dir / "docs" / "markdown")%path in
  let images_dir := (output_dir / "images")%path in
  is_dir (fs st) (script_dir / "docs")%path = true ->
  is_file (fs st) output_dir = false ->
  is_file (fs st) images_dir = false ->
  exists evs,
    main env script_dir st = (Ok tt, extend st evs)
    /\ converting_lines evs
       = map (fun p => "Converting: " +:+ name p) (sorted (glob_pdf env pdf_dir))
    /\ StronglySorted path_le (sorted (glob_pdf env pdf_dir))
    /\ sorted (glob_pdf env pdf_dir) ≡ₚ glob_pdf env pdf_dir.
Proof.
  intros pdf_dir output_dir images_dir _ HO HI.
  destruct (main_run env script_dir st HO HI) as (st' & Hrun & Hnone & Hfiles).
  fold pdf_dir output_dir images_dir in Hnone, Hfiles.
  assert (Hsorted : StronglySorted path_le (sorted (glob_pdf env pdf_dir))
                    /\ sorted (glob_pdf env pdf_dir) ≡ₚ glob_pdf env pdf_dir).
  { split; [apply StronglySorted_merge_sort; apply _ | apply merge_sort_Permutation]. }
  destruct (sorted (glob_pdf env pdf_dir)) as [|p rest] eqn:Ef.
  - rewrite (Hnone eq_refl) in Hrun. eexists. split; [exact Hrun|]. split; [|done].
    reflexivity.
  - destruct Hfiles as (st1 & H1 & ->); [done|].
    destruct (convert_all_converting_lines env output_dir images_dir (p :: rest)
                (extend st [Mkdir output_dir; Mkdir images_dir;
                            Print ("Found " +:+ str (length (p :: rest))
                                   +:+ " PDF files to convert" +:+ nl)]))
      as (evs & E & Hlines).
    rewrite H1 in E. injection E as ->.
    rewrite !extend_extend in Hrun.
    eexists. split; [exact Hrun|]. split; [|done].
    rewrite !converting_lines_app, Hlines.
    change (converting_lines [Mkdir output_dir; Mkdir images_dir; Print ?s]) with (@nil string).
    change (converting_lines [Print ?a; Print ?b; Print ?c]) with (@nil string).
    by rewrite app_nil_r.
Qed.

Lemma conversions_in_name_order_witness :
  is_dir (fs docs_state) ([] / "docs")%path = true /\
  is_file (fs docs_state) ([] / "docs" / "markdown")%path = false /\
  is_file (fs docs_state) ([] / "docs" / "markdown" / "images")%path = false /\
  exists evs,
    main two_files_env [] docs_state = (Ok tt, extend docs_state evs)
    /\ converting_lines evs = ["Converting: a.pdf"; "Converting: b.pdf"].
Proof.
  split; [reflexivity|]. split; [reflexivity|]. split; [reflexivity|].
  destruct (conversions_in_name_order two_files_env [] docs_state eq_refl eq_refl eq_refl)
    as (evs & Hrun & Hlines & _).
  exists evs. split; [exact Hrun | exact Hlines].
Defined.

(** ** Further properties: the page that fails *)

Lemma convert_page_fails doc pdf_name images_dir k mc st e :
  load_page doc k = Raise e
  \/ (exists page, load_page doc k = Ok page
        /\ (get_text page = Raise e
            \/ exists text, get_text page = Ok text /\ get_images page = Raise e)) ->
  convert_page doc pdf_name images_dir k mc st = (Raise e, st).
Proof.
  unfold convert_page, bind, call.
  intros [Hl|(page & Hl & [Ht|(text & Ht & Hi)])]; rewrite Hl; [done| |].
  - by rewrite Ht.
  - by rewrite Ht, (extract_images_listing_fails _ _ _ _ _ _ Hi).
Qed.

Lemma raised_conversion_frame env pdf_path output_dir st e st' :
  convert_pdf_to_markdown env pdf_path output_dir (output_dir / "images")%path st
    = (Raise e, st') ->
  fs st' !! (output_dir / output_name (stem pdf_path))%path
  = (fs st !! (output_dir / output_name (stem pdf_path))%path).
Proof.
  intros Hrun.
  destruct (convert_trace env pdf_path output_dir (output_dir / "images")%path st)
    as (r & evs & tail & Hr & Hev & Hnone & _ & Htail).
  rewrite Hrun in Hr. injection Hr as <- ->.
  destruct Htail as [(e' & _ & ->)|[[=] _]]. rewrite app_nil_r.
  rewrite fs_extend. apply replay_untouched.
  rewrite touches_elem. intros Hin.
  assert (Hshape : exists ev, ev ∈ evs
            /\ (ev = Mkdir (output_dir / output_name (stem pdf_path))%path
                \/ exists d, ev = Write (output_dir / output_name (stem pdf_path))%path d)).
  { destruct Hin as [Hm|Hw].
    - apply elem_of_cons in Hm as [[=]|Hm]. eauto.
    - apply writes_elem in Hw as [d Hw]. apply elem_of_cons in Hw as [[=]|Hw]. eauto. }
  destruct Hshape as (ev & Hin' & Hev').
  destruct (fitz_open env pdf_path) as [doc|e0] eqn:Hopen.
  - specialize (Hev doc eq_refl). rewrite Forall_forall in Hev. specialize (Hev ev Hin').
    destruct Hev' as [->|[d ->]]; simpl in Hev.
    + revert Hev. apply path_depth_ne. rewrite !path_join_length. lia.
    + destruct Hev as (n & i & x & _ & E). revert E.
      apply path_depth_ne. rewrite !path_join_length. lia.
  - rewrite (Hnone e0 eq_refl) in Hin'. inversion Hin'.
Qed.

(** X12.  When [main] calls it, the first page whose loading, text
    extraction or image listing raises ends the conversion of the
    document: the conversion raises that very exception, the Markdown
    path is left as it was, and the loop of [main] prints
    [Error converting <name>: <e>] with its message before going on with
    the next file. *)
Theorem failing_page_aborts_document env pdf_path output_dir st doc pg tx im k e :
  let images_dir := (output_dir / "images")%path in
  let output_path := (output_dir / output_name (stem pdf_path))%path in
  fitz_open env pdf_path = Ok doc ->
  k < len doc ->
  (forall n, n < k ->
     load_page doc n = Ok (pg n) /\ get_text (pg n) = Ok (tx n)
     /\ get_images (pg n) = Ok (im n)) ->
  (load_page doc k = Raise e
   \/ (exists page, load_page doc k = Ok page
         /\ (get_text page = Raise e
             \/ exists text, get_text page = Ok text /\ get_images page = Raise e))) ->
  is_file (fs st) (images_dir / stem pdf_path)%path = false ->
  exists st',
    convert_pdf_to_markdown env pdf_path output_dir images_dir st = (Raise e, st')
    /\ fs st' !! output_path = (fs st !! output_path)
    /\ forall rest,
         convert_all env output_dir images_dir (pdf_path :: rest) st
         = convert_all env output_dir images_dir rest
             (extend st' [Print ("  Error converting " +:+ name pdf_path
                                 +:+ ": " +:+ str_exn e)]).
Proof.
  intros images_dir output_path Hopen Hk Hpages Hfail Hfree.
  assert (Hseq : seq 0 (len doc) = seq 0 k ++ k :: seq (S k) (len doc - S k)).
  { replace (len doc) with (k + S (len doc - S k)) at 1 by lia.
    by rewrite seq_app. }
  destruct (convert_pages_ok doc (stem pdf_path) images_dir (fs st) pg tx im k 0
              (header pdf_path) (extend st [Print ("Converting: " +:+ name pdf_path)]))
    as (st1 & H1 & _ & _); [intros n Hn; apply Hpages; lia | done | done |].
  assert (Hrun : convert_pdf_to_markdown env pdf_path output_dir images_dir st
                 = (Raise e, st1)).
  { unfold convert_pdf_to_markdown, bind. rewrite print_run. unfold call at 1.
    rewrite Hopen, Hseq, for_in_app, H1. simpl. unfold bind.
    by rewrite (convert_page_fails _ _ _ _ _ _ _ Hfail). }
  exists st1. split; [exact Hrun|]. split.
  - by apply (raised_conversion_frame env pdf_path output_dir st e).
  - intros rest. by rewrite convert_all_cons, Hrun.
Qed.

Lemma failing_page_aborts_document_witness :
  exists st',
    convert_pdf_to_markdown broken_env nota_pdf ["out"] (["out"] / "images")%path empty_state
      = (Raise (Exception "cannot read page"), st')
    /\ convert_all broken_env ["out"] (["out"] / "images")%path [nota_pdf] empty_state
       = (Ok tt, extend st' [Print "  Error converting nota.pdf: cannot read page"]).
Proof.
  destruct (failing_page_aborts_document broken_env nota_pdf ["out"] empty_state broken_doc
              (fun _ => page_bad_good) (fun _ => "Nota fiscal")
              (fun _ => [ {| xref := 7 |}; {| xref := 8 |} ]) 1
              (Exception "cannot read page") eq_refl) as (st' & Hrun & _ & Hall).
  - simpl. lia.
  - intros n Hn. assert (n = 0) as -> by lia. done.
  - right. exists page_unreadable. split; [reflexivity | by left].
  - reflexivity.
  - exists st'. split; [exact Hrun|]. apply (Hall []).
Defined.
